(** * ImageComponent: code generation for the Native (PsychoPy) and Web
      (PsychoJS) targets

    Shallow embedding of
    [psychopy/experiment/components/image/__init__.py]: the constructor
    [ImageComponent.__init__] and the two emitters [writeInitCode] and
    [writeInitCodeJS].

    Python objects live in a store: a [Param] is an object with mutable
    attributes, a dict maps names to references.  The emitters run in a small
    state-and-exception monad over that store, so that the in-place updates
    of [writeInitCodeJS] (lines 149-157) and the copies made by [getInitVals]
    are visible in the model. *)

From Stdlib Require Import ZArith Lia Ascii.
From Stdlib Require DecimalString DecimalZ DecimalPos.
From stdpp Require Import base option list gmap fin_maps strings.

Local Open Scope Z_scope.

(** ** Python values *)

(** The values a [Param.val] holds.  [POther] stands for any other object
    (a float, a tuple such as the default [pos=(0, 0)]), carried by its
    [repr]. *)
Inductive pyval : Type :=
  | PNone
  | PBool (b : bool)
  | PInt (z : Z)
  | PStr (s : string)
  | POther (r : string).

(** Python [==] on these values.  [True == 1] and [False == 0] hold in
    Python; [None] and strings equal only themselves. *)
Definition py_eq (a b : pyval) : bool :=
  match a, b with
  | PNone, PNone => true
  | PBool x, PBool y => bool_decide (x = y)
  | PInt x, PInt y => bool_decide (x = y)
  | PBool x, PInt y | PInt y, PBool x => bool_decide (y = if x then 1 else 0)
  | PStr x, PStr y => bool_decide (x = y)
  | POther x, POther y => bool_decide (x = y)
  | _, _ => false
  end.

(** [x is True], [x is False]: identity with the two bool singletons. *)
Definition py_is (a b : pyval) : bool :=
  match a, b with
  | PNone, PNone => true
  | PBool x, PBool y => bool_decide (x = y)
  | _, _ => false
  end.

(** [x in xs] on a Python list: identity or equality with some element. *)
Definition py_in (a : pyval) (xs : list pyval) : bool :=
  existsb (fun x => py_is a x || py_eq a x) xs.

(** ** Parameters and components *)

(** [Param] as the constructor calls of lines 56-103 build it. *)
Record Param : Type := mkParam {
  val : pyval;
  valType : string;
  inputType : string;
  allowedVals : list string;
  allowedTypes : list string;
  categ : string;
  updates : string;
  allowedUpdates : list string;
  hint : string;
  label : string
}.

Definition set_val (v : pyval) (p : Param) : Param :=
  mkParam v (valType p) (inputType p) (allowedVals p) (allowedTypes p) (categ p)
          (updates p) (allowedUpdates p) (hint p) (label p).

Definition set_valType (t : string) (p : Param) : Param :=
  mkParam (val p) t (inputType p) (allowedVals p) (allowedTypes p) (categ p)
          (updates p) (allowedUpdates p) (hint p) (label p).

(** References into the store of [Param] objects. *)
Abbreviation loc := nat.

(** A component: the attributes the constructor assigns. *)
Record Component : Type := mkComponent {
  params : gmap string loc;
  order : list string;
  type : string;
  targets : list string;
  url : string
}.

Inductive Target : Type := PsychoPy | PsychoJS.

(** An entry of [inits]: a reference to a [Param], or the [str] that
    [writeInitCodeJS] stores over it (lines 152 and 154). *)
Inductive slot : Type :=
  | SParam (l : loc)
  | SStr (s : string).

(** ** The store and the monad *)

Record State : Type := mkState {
  heap : list Param;
  buff : list string;
  libs : list string
}.

Inductive error : Type :=
  | KeyError (k : string)
  | AttributeError
  | Dangling (l : loc).

Inductive result (A : Type) : Type :=
  | Ok (a : A)
  | Raise (e : error).
Arguments Ok {A} a.
Arguments Raise {A} e.

Definition M (A : Type) : Type := State -> result A * State.

Definition ret {A} (a : A) : M A := fun s => (Ok a, s).

Definition bind {A B} (m : M A) (k : A -> M B) : M B :=
  fun s => match m s with
           | (Ok a, s') => k a s'
           | (Raise e, s') => (Raise e, s')
           end.

Definition raise {A} (e : error) : M A := fun s => (Raise e, s).

Declare Scope py_scope.
Delimit Scope py_scope with py.
Notation "'let!' x ':=' m 'in' k" := (bind m (fun x => k))
  (at level 10, x name, m at level 100, k at level 200) : py_scope.
Notation "'do!' m 'in' k" := (bind m (fun _ => k))
  (at level 10, m at level 100, k at level 200) : py_scope.
Local Open Scope py_scope.

(** [d[k]] on a dict: [KeyError] when the key is absent. *)
Definition getitem {V} (d : gmap string V) (k : string) : M V :=
  match d !! k with
  | Some v => ret v
  | None => raise (KeyError k)
  end.

(** Reading the object behind a reference. *)
Definition deref (l : loc) : M Param :=
  fun s => match heap s !! l with
           | Some p => (Ok p, s)
           | None => (Raise (Dangling l), s)
           end.

(** A new object, at the next free address. *)
Definition alloc (p : Param) : M loc :=
  fun s => (Ok (length (heap s)),
            mkState (heap s ++ [p]) (buff s) (libs s)).

(** Attribute assignment [obj.attr = v] through a reference. *)
Definition modify (l : loc) (f : Param -> Param) : M unit :=
  fun s => match heap s !! l with
           | Some p => (Ok tt, mkState (<[l := f p]> (heap s)) (buff s) (libs s))
           | None => (Raise (Dangling l), s)
           end.

(** [for k in ks: ...] where the body updates a local dict [d]. *)
Fixpoint for_keys {D} (ks : list string) (body : string -> D -> M D) (d : D)
  : M D :=
  match ks with
  | [] => ret d
  | k :: ks' => let! d' := body k d in for_keys ks' body d'
  end.

(** ** Text *)

Definition nl : string := String (Ascii.ascii_of_nat 10) "".

(** ["%.1f" % z] for an integer [z]: its decimal digits, then [.0].  The
    conversion to a float that [%f] makes is exact below [2^53], which the
    index of a component in a routine always is. *)
Definition fmt1f (z : Z) : string :=
  DecimalString.NilZero.string_of_int (Z.to_int z) +:+ ".0".

(** A format string, split at its replacement fields: literal text,
    [{inits[name]}] and [{units}]. *)
Inductive piece : Type :=
  | Lit (s : string)
  | Fld (name : string)
  | Units.

(** The format string of lines 119-127. *)
Definition nativeTemplate : list piece :=
  [ Fld "name"; Lit (" = visual.ImageStim(" +:+ nl +:+
                     "    win=win," +:+ nl +:+
                     "    name='"); Fld "name"; Lit "', "; Units;
    Lit (nl +:+ "    image="); Fld "image"; Lit ", mask="; Fld "mask";
    Lit ("," +:+ nl +:+ "    ori="); Fld "ori"; Lit ", pos="; Fld "pos";
    Lit ", size="; Fld "size";
    Lit ("," +:+ nl +:+ "    color="); Fld "color";
    Lit ", colorSpace="; Fld "colorSpace"; Lit ", opacity="; Fld "opacity";
    Lit ("," +:+ nl +:+ "    flipHoriz="); Fld "flipHoriz";
    Lit ", flipVert="; Fld "flipVert";
    Lit ("," +:+ nl +:+ "    texRes="); Fld "texture resolution" ].

(** The format string of lines 159-167; [{{] is a literal brace. *)
Definition jsTemplate : list piece :=
  [ Fld "name"; Lit (" = new visual.ImageStim({" +:+ nl +:+
                     "  win : psychoJS.window," +:+ nl +:+
                     "  name : '"); Fld "name"; Lit "', "; Units;
    Lit (nl +:+ "  image : "); Fld "image"; Lit ", mask : "; Fld "mask";
    Lit ("," +:+ nl +:+ "  ori : "); Fld "ori"; Lit ", pos : "; Fld "pos";
    Lit ", size : "; Fld "size";
    Lit ("," +:+ nl +:+ "  color : new util.Color("); Fld "color";
    Lit "), opacity : "; Fld "opacity";
    Lit ("," +:+ nl +:+ "  flipHoriz : "); Fld "flipHoriz";
    Lit ", flipVert : "; Fld "flipVert";
    Lit ("," +:+ nl +:+ "  texRes : "); Fld "texture resolution" ].

(** The sentinels of line 155. *)
Definition sentinels : list pyval :=
  [PNone; PStr "None"; PStr "none"; PStr ""; PStr "sin"].

(** The names a format string looks up in [inits], and its literal text. *)
Fixpoint fields (t : list piece) : list string :=
  match t with
  | [] => []
  | Fld n :: t' => n :: fields t'
  | _ :: t' => fields t'
  end.

Fixpoint literals (t : list piece) : list string :=
  match t with
  | [] => []
  | Lit s :: t' => s :: literals t'
  | _ :: t' => literals t'
  end.

(** All the literal text the Native emitter writes: the format string and
    the texts of lines 115, 132, 134 and 136. *)
Definition nativeLiterals : list string :=
  literals nativeTemplate ++
  ["units="; ", "; ", interpolate=True"; ", interpolate=False"; ", depth=";
   ")" +:+ nl].

(** [sub in s] on strings. *)
Fixpoint contains (sub s : string) : bool :=
  String.prefix sub s ||
  match s with
  | EmptyString => false
  | String _ s' => contains sub s'
  end.

(** [c in s] for one character [c]. *)
Fixpoint occurs (c : Ascii.ascii) (s : string) : bool :=
  match s with
  | EmptyString => false
  | String x s' => bool_decide (x = c) || occurs c s'
  end.

(** The store after the editing layer has replaced the object at [l]. *)
Definition edit (l : loc) (p : Param) (s : State) : State :=
  mkState (<[l := p]> (heap s)) (buff s) (libs s).

(** The parameters that lines 105-108 delete. *)
Definition deleted : list string :=
  ["fillColor"; "fillColorSpace"; "borderColor"; "borderColorSpace"].

(** The parameters that the emitters read and the constructor does not
    define: the base class has to provide them. *)
Definition inherited : list string :=
  ["name"; "units"; "color"; "colorSpace"; "pos"; "size"; "ori"; "opacity"].

Section ImageComponent.

(** Code of the repository that the two emitters call and that lies outside
    this file, taken as parameters: [Param.__str__], the default that
    [getInitVals] gives a parameter for a target, the position of a component
    in its routine, and the translation of user-visible text. *)
Variable Param_str : Param -> string.
Variable initVal : Target -> string -> Param -> Param.
Variable getPosInRoutine : Component -> positive.
Variable _translate : string -> string.

(** [str(x)] for an entry of [inits]. *)
Definition str_slot (sl : slot) : M string :=
  match sl with
  | SParam l => let! p := deref l in ret (Param_str p)
  | SStr s => ret s
  end.

(** [x.val] for an entry of [inits]; a [str] has no such attribute. *)
Definition slot_val (sl : slot) : M pyval :=
  match sl with
  | SParam l => let! p := deref l in ret (val p)
  | SStr _ => raise AttributeError
  end.

(** [x.attr = v] for an entry of [inits]. *)
Definition slot_set (sl : slot) (f : Param -> Param) : M unit :=
  match sl with
  | SParam l => modify l f
  | SStr _ => raise AttributeError
  end.

(** [template.format(inits=inits, units=unitsStr)]: the fields are looked up
    and rendered from left to right. *)
Fixpoint format (t : list piece) (inits : gmap string slot) (unitsStr : string)
  : M string :=
  match t with
  | [] => ret ""
  | Lit s :: t' =>
      let! r := format t' inits unitsStr in ret (s +:+ r)
  | Fld n :: t' =>
      let! sl := getitem inits n in
      let! s := str_slot sl in
      let! r := format t' inits unitsStr in ret (s +:+ r)
  | Units :: t' =>
      let! r := format t' inits unitsStr in ret (unitsStr +:+ r)
  end.

(** Modelled from the spec: [getInitVals(params, target)], which is defined
    in [psychopy/experiment/components/__init__.py].  The resolved map is
    created fresh on every call and the source parameters are never
    mutated: every parameter is copied to a new object, holding the value
    [initVal] gives it for the target. *)
Fixpoint copy_params (kvs : list (string * loc)) (target : Target)
    (acc : gmap string slot) : M (gmap string slot) :=
  match kvs with
  | [] => ret acc
  | (k, l) :: kvs' =>
      let! p := deref l in
      let! l' := alloc (initVal target k p) in
      copy_params kvs' target (<[k := SParam l']> acc)
  end.

Definition getInitVals (ps : gmap string loc) (target : Target)
  : M (gmap string slot) :=
  copy_params (map_to_list ps) target ∅.

(** Modelled from the spec: [buff.writeIndentedLines(code)], the append-only
    output sink. *)
Definition writeIndentedLines (code : string) : M unit :=
  fun s => (Ok tt, mkState (heap s) (buff s ++ [code]) (libs s)).

(** Modelled from the spec: [exp.requirePsychopyLibs(names)], which registers
    the libraries a component needs. *)
Definition requirePsychopyLibs (names : list string) : M unit :=
  fun s => (Ok tt, mkState (heap s) (buff s) (libs s ++ names)).

(** [del d[k]] *)
Definition delitem {V} (d : gmap string V) (k : string) : M (gmap string V) :=
  match d !! k with
  | Some _ => ret (delete k d)
  | None => raise (KeyError k)
  end.

(** Lines 32-108.  [self] is the component as the constructor of the base
    class, [BaseVisualComponent.__init__] (lines 40-46), leaves it; the labels
    are the entries that lines 21-26 put into [_localized]. *)
Definition ImageComponent_init (self : Component)
    (image mask interpolate texRes flipVert flipHoriz : pyval)
  : M Component :=
  do! requirePsychopyLibs ["visual"] in
  let order' := order self ++ ["image"; "pos"; "size"; "ori"; "opacity"] in
  let ps := params self in
  let! l := alloc (mkParam image "file" "file" [] [] "Basic" "constant"
      ["constant"; "set every repeat"; "set every frame"]
      (_translate "The image to be displayed - a filename, including path")
      (_translate "Image")) in
  let ps := <["image" := l]> ps in
  let! l := alloc (mkParam mask "str" "single" [] [] "Texture" "constant"
      ["constant"; "set every repeat"; "set every frame"]
      (_translate ("An image to define the alpha mask through which the image is " +:+
                   "seen - gauss, circle, None or a filename (including path)"))
      (_translate "Mask")) in
  let ps := <["mask" := l]> ps in
  let! l := alloc (mkParam texRes "num" "choice"
      ["32"; "64"; "128"; "256"; "512"] [] "Texture" "constant" []
      (_translate "Resolution of the mask if one is used.")
      (_translate "Texture resolution")) in
  let ps := <["texture resolution" := l]> ps in
  let! l := alloc (mkParam interpolate "str" "choice"
      ["linear"; "nearest"] [] "Texture" "constant" []
      (_translate "How should the image be interpolated if/when rescaled")
      (_translate "Interpolate")) in
  let ps := <["interpolate" := l]> ps in
  let! l := alloc (mkParam flipVert "bool" "bool" [] [] "Layout" "constant" []
      (_translate "Should the image be flipped vertically (top to bottom)?")
      (_translate "Flip vertically")) in
  let ps := <["flipVert" := l]> ps in
  let! l := alloc (mkParam flipHoriz "bool" "bool" [] [] "Layout" "constant" []
      (_translate "Should the image be flipped horizontally (left to right)?")
      (_translate "Flip horizontally")) in
  let ps := <["flipHoriz" := l]> ps in
  let! ps := delitem ps "fillColor" in
  let! ps := delitem ps "fillColorSpace" in
  let! ps := delitem ps "borderColor" in
  let! ps := delitem ps "borderColorSpace" in
  ret (mkComponent ps order' "Image" ["PsychoPy"; "PsychoJS"]
         "http://www.psychopy.org/builder/components/image.html").

(** [str(self.params[k])], as in ["%(k)s" % self.params]. *)
Definition percent_s (ps : gmap string loc) (k : string) : M string :=
  let! l := getitem ps k in
  let! p := deref l in
  ret (Param_str p).

(** [self.params[k].val] *)
Definition param_val (ps : gmap string loc) (k : string) : M pyval :=
  let! l := getitem ps k in
  let! p := deref l in
  ret (val p).

(** Lines 110-137. *)
Definition writeInitCode (self : Component) : M unit :=
  let! u := param_val (params self) "units" in
  let! unitsStr :=
    (if py_eq u (PStr "from exp settings") then ret ""
     else let! s := percent_s (params self) "units" in
          ret ("units=" +:+ s +:+ ", ")) in
  let! inits := getInitVals (params self) PsychoPy in
  let! code := format nativeTemplate inits unitsStr in
  let! i := param_val (params self) "interpolate" in
  let code :=
    if py_eq i (PStr "linear") then code +:+ ", interpolate=True"
    else code +:+ ", interpolate=False" in
  let depth := - Z.pos (getPosInRoutine self) in
  let code := code +:+ (", depth=" +:+ fmt1f depth +:+ ")" +:+ nl) in
  writeIndentedLines code.

(** The body of the loop of lines 149-157. *)
Definition js_coerce (paramName : string) (inits : gmap string slot)
  : M (gmap string slot) :=
  let! sl := getitem inits paramName in
  let! v := slot_val sl in
  if py_is v (PBool true) then ret (<[paramName := SStr "true"]> inits)
  else if py_is v (PBool false) then ret (<[paramName := SStr "false"]> inits)
  else if py_in v sentinels then
    let! sl1 := getitem inits paramName in
    do! slot_set sl1 (set_valType "code") in
    let! sl2 := getitem inits paramName in
    do! slot_set sl2 (set_val (PStr "undefined")) in
    ret inits
  else ret inits.

(** Lines 146-157: the resolved map of the Web target. *)
Definition resolveJS (self : Component) : M (gmap string slot) :=
  let! inits := getInitVals (params self) PsychoJS in
  for_keys (map_to_list inits).*1 js_coerce inits.

(** Lines 139-180. *)
Definition writeInitCodeJS (self : Component) : M unit :=
  let! u := param_val (params self) "units" in
  let! unitsStr :=
    (if py_eq u (PStr "from exp settings") then ret "units : undefined, "
     else let! s := percent_s (params self) "units" in
          ret ("units : " +:+ s +:+ ", ")) in
  let! inits := resolveJS self in
  let! code := format jsTemplate inits unitsStr in
  let! i := param_val (params self) "interpolate" in
  let code :=
    if py_eq i (PStr "linear") then code +:+ ", interpolate : true"
    else code +:+ ", interpolate : false" in
  let depth := - Z.pos (getPosInRoutine self) in
  let code := code +:+ (", depth : " +:+ fmt1f depth +:+ " " +:+ nl +:+
                        "});" +:+ nl) in
  writeIndentedLines code.

(** ** What a pass computes, as functions of the parameter values

    The emitters above follow the source statement by statement.  The
    functions below describe their result from the values of the parameters
    alone; the two are proved equal further down. *)

(** The values behind a dict of references. *)
Definition snapshot (h : list Param) (ps : gmap string loc)
  : gmap string Param :=
  omap (fun l => h !! l) ps.

(** No reference of the dict dangles. *)
Definition wf (ps : gmap string loc) (h : list Param) : Prop :=
  map_Forall (fun _ l => (l < length h)%nat) ps.

(** An entry of [inits] by value. *)
Inductive entry : Type :=
  | EParam (p : Param)
  | EStr (s : string).

Definition entry_of (h : list Param) (sl : slot) : option entry :=
  match sl with
  | SParam l => EParam <$> h !! l
  | SStr s => Some (EStr s)
  end.

Definition view (h : list Param) (inits : gmap string slot)
  : gmap string entry :=
  omap (entry_of h) inits.

Definition str_entry (e : entry) : string :=
  match e with
  | EParam p => Param_str p
  | EStr s => s
  end.

(** The effect of one round of the loop of lines 149-157 on an entry. *)
Definition coerceJS (p : Param) : entry :=
  if py_is (val p) (PBool true) then EStr "true"
  else if py_is (val p) (PBool false) then EStr "false"
  else if py_in (val p) sentinels then
    EParam (set_val (PStr "undefined") (set_valType "code" p))
  else EParam p.

Definition resolved (target : Target) (snap : gmap string Param)
  : gmap string entry :=
  match target with
  | PsychoPy => map_imap (fun k p => Some (EParam (initVal PsychoPy k p))) snap
  | PsychoJS => map_imap (fun k p => Some (coerceJS (initVal PsychoJS k p))) snap
  end.

Definition rbind {A B} (r : result A) (k : A -> result B) : result B :=
  match r with
  | Ok a => k a
  | Raise e => Raise e
  end.

Definition lookup_or_raise {V} (d : gmap string V) (k : string) : result V :=
  match d !! k with
  | Some v => Ok v
  | None => Raise (KeyError k)
  end.

Fixpoint render (t : list piece) (v : gmap string entry) (unitsStr : string)
  : result string :=
  match t with
  | [] => Ok ""
  | Lit s :: t' => rbind (render t' v unitsStr) (fun r => Ok (s +:+ r))
  | Fld n :: t' =>
      rbind (lookup_or_raise v n) (fun e =>
      rbind (render t' v unitsStr) (fun r => Ok (str_entry e +:+ r)))
  | Units :: t' => rbind (render t' v unitsStr) (fun r => Ok (unitsStr +:+ r))
  end.

Definition unitsClause (target : Target) (pu : Param) : string :=
  match target with
  | PsychoPy =>
      if py_eq (val pu) (PStr "from exp settings") then ""
      else "units=" +:+ Param_str pu +:+ ", "
  | PsychoJS =>
      if py_eq (val pu) (PStr "from exp settings") then "units : undefined, "
      else "units : " +:+ Param_str pu +:+ ", "
  end.

Definition interpolateClause (target : Target) (pi : Param) : string :=
  match target with
  | PsychoPy =>
      if py_eq (val pi) (PStr "linear") then ", interpolate=True"
      else ", interpolate=False"
  | PsychoJS =>
      if py_eq (val pi) (PStr "linear") then ", interpolate : true"
      else ", interpolate : false"
  end.

Definition depthStr (self : Component) : string :=
  fmt1f (- Z.pos (getPosInRoutine self)).

Definition depthClause (target : Target) (self : Component) : string :=
  match target with
  | PsychoPy => ", depth=" +:+ depthStr self +:+ ")" +:+ nl
  | PsychoJS => ", depth : " +:+ depthStr self +:+ " " +:+ nl +:+ "});" +:+ nl
  end.

Definition template (target : Target) : list piece :=
  match target with
  | PsychoPy => nativeTemplate
  | PsychoJS => jsTemplate
  end.

(** The format string before and after its [{units}] field. *)
Definition headPieces (target : Target) : list piece :=
  take 4 (template target).

Definition tailPieces (target : Target) : list piece :=
  drop 5 (template target).

(** The text of the construction statement for a target. *)
Definition initCode (target : Target) (self : Component)
    (snap : gmap string Param) : result string :=
  rbind (lookup_or_raise snap "units") (fun pu =>
  rbind (render (template target) (resolved target snap)
                (unitsClause target pu)) (fun code =>
  rbind (lookup_or_raise snap "interpolate") (fun pi =>
  Ok (code +:+ interpolateClause target pi +:+ depthClause target self)))).

(** One generation pass for a target. *)
Definition generate (target : Target) (self : Component) : M unit :=
  match target with
  | PsychoPy => writeInitCode self
  | PsychoJS => writeInitCodeJS self
  end.

(** ** Auxiliary notions for the proofs *)

Definition grow (s : State) (news : list Param) : State :=
  mkState (heap s ++ news) (buff s) (libs s).

(** The dict [copy_params] builds, and the objects it allocates. *)
Fixpoint copied (kvs : list (string * loc)) (n : nat)
    (acc : gmap string slot) : gmap string slot :=
  match kvs with
  | [] => acc
  | (k, _) :: kvs' => copied kvs' (S n) (<[k := SParam n]> acc)
  end.

Definition copies (target : Target) (h : list Param)
    (kvs : list (string * loc)) : list Param :=
  omap (fun kl => initVal target kl.1 <$> h !! kl.2) kvs.

Definition slots_inj (inits : gmap string slot) : Prop :=
  forall k1 k2 l,
    inits !! k1 = Some (SParam l) -> inits !! k2 = Some (SParam l) -> k1 = k2.

Definition slots_valid (inits : gmap string slot) (h : list Param) : Prop :=
  forall k sl, inits !! k = Some sl -> is_Some (entry_of h sl).

Definition js_inits (k : string) (p : Param) (inits : gmap string slot)
  : gmap string slot :=
  match coerceJS p with
  | EStr b => <[k := SStr b]> inits
  | EParam _ => inits
  end.

Definition js_heap (l : loc) (p : Param) (h : list Param) : list Param :=
  match coerceJS p with
  | EParam q => <[l := q]> h
  | EStr _ => h
  end.

Definition pass_result (r : result string) : result unit :=
  match r with
  | Ok _ => Ok tt
  | Raise e => Raise e
  end.

Definition pass_out (r : result string) : list string :=
  match r with
  | Ok code => [code]
  | Raise _ => []
  end.

End ImageComponent.

(** The names a pass reads from the mapping: [units] (lines 112, 141),
    [interpolate] (lines 131, 171) and the fields of the format string. *)
Definition required (target : Target) : list string :=
  "units" :: "interpolate" :: fields (template target).

(** The parameters that lines 56-103 define. *)
Definition defined : list string :=
  ["image"; "mask"; "texture resolution"; "interpolate"; "flipVert";
   "flipHoriz"].

(** The names, values and declared types of lines 56-103, in the order
    the constructor defines them. *)
Definition definedAs (image mask interpolate texRes flipVert flipHoriz : pyval)
  : list (string * pyval * string) :=
  [ ("image", image, "file"); ("mask", mask, "str");
    ("texture resolution", texRes, "num"); ("interpolate", interpolate, "str");
    ("flipVert", flipVert, "bool"); ("flipHoriz", flipHoriz, "bool") ].

(** ** A concrete instance of the parameters *)

(** Modelled from the spec: [Param.__str__], which is defined in
    [psychopy/experiment/params.py].  Booleans and [None] render as the
    native literals, strings render quoted unless the declared type is
    [code], in which case the raw text is emitted unquoted. *)
Definition Param_str_spec (p : Param) : string :=
  match val p with
  | PNone => "None"
  | PBool true => "True"
  | PBool false => "False"
  | PInt z => DecimalString.NilZero.string_of_int (Z.to_int z)
  | PStr s => if bool_decide (valType p = "code") then s
              else "'" +:+ s +:+ "'"
  | POther r => r
  end.

(** The parameters of a component as the base class leaves them, with the
    values of the scenario of the specification. *)
Definition baseParam (v : pyval) (t : string) : Param :=
  mkParam v t "single" [] [] "Basic" "constant" [] "" "".

Definition base_heap : list Param :=
  [ baseParam (PStr "image") "code";
    baseParam (PStr "from exp settings") "str";
    baseParam (PStr "$[1,1,1]") "str";
    baseParam (PStr "rgb") "str";
    baseParam (POther "(0, 0)") "code";
    baseParam (POther "(0.5, 0.5)") "code";
    baseParam (PInt 0) "code";
    baseParam (PInt 1) "code";
    baseParam (PStr "$[1,1,1]") "str";
    baseParam (PStr "rgb") "str";
    baseParam (PStr "$[1,1,1]") "str";
    baseParam (PStr "rgb") "str" ].

Definition base_params : gmap string loc :=
  list_to_map
    [ ("name", 0%nat); ("units", 1%nat); ("color", 2%nat);
      ("colorSpace", 3%nat); ("pos", 4%nat); ("size", 5%nat);
      ("ori", 6%nat); ("opacity", 7%nat); ("fillColor", 8%nat);
      ("fillColorSpace", 9%nat); ("borderColor", 10%nat);
      ("borderColorSpace", 11%nat) ].

Definition base_component : Component :=
  mkComponent base_params ["name"] "" [] "".

Definition base_state : State := mkState base_heap [] [].

Definition scenario_init : result Component * State :=
  ImageComponent_init id base_component (PStr "face.jpg") (PStr "None")
    (PStr "linear") (PStr "128") (PBool false) (PBool false) base_state.

Definition id_init : Target -> string -> Param -> Param := fun _ _ p => p.

Definition first_pos : Component -> positive := fun _ => 1%positive.

(** The image component of the scenario and the store it lives in. *)
Definition image_component : Component :=
  match scenario_init with
  | (Ok c, _) => c
  | (Raise _, _) => base_component
  end.

Definition image_state : State := scenario_init.2.

(** The object at [l], for stating facts about a concrete store. *)
Definition param_at (s : State) (l : loc) : Param :=
  default (baseParam PNone "") (heap s !! l).

(** The scenario with [flipVert] edited to hold the string ['True']. *)
Definition image_state_str : State :=
  edit 16 (baseParam (PStr "True") "bool") image_state.

(** The scenario with [units] edited to hold the empty string. *)
Definition image_state_units : State :=
  edit 1 (baseParam (PStr "") "str") image_state.

(** The scenario with [image] edited to name a file called [});]. *)
Definition image_state_braces : State :=
  edit 12 (baseParam (PStr "});") "str") image_state.

(** * Microphone: the wrapper of a PTB recording stream

    Shallow embedding of [psychopy/sound/_microphone.py].  The PTB library
    is outside the repository: the model records every call the class makes
    on it, in order, and takes what PTB answers as a parameter. *)

Module Microphone.

Inductive exn : Type :=
  | AssertionError
  | TypeError
  | ValueError
  | OverflowError
  | AttributeError
  | AudioStreamError (msg : string)
  | PTBError (msg : string).

Inductive res (A : Type) : Type :=
  | Ok (a : A)
  | Raise (e : exn).
Arguments Ok {A} a.
Arguments Raise {A} e.

Definition Run (St A : Type) : Type := St -> res A * St.

Definition ret_ {St A} (a : A) : Run St A := fun w => (Ok a, w).

Definition raise_ {St A} (e : exn) : Run St A := fun w => (Raise e, w).

Definition bind_ {St A B} (m : Run St A) (k : A -> Run St B) : Run St B :=
  fun w => match m w with
           | (Ok a, w') => k a w'
           | (Raise e, w') => (Raise e, w')
           end.

Notation "'run!' x ':=' m 'in' k" := (bind_ m (fun x => k))
  (at level 10, x name, m at level 100, k at level 200) : py_scope.
Notation "'exec!' m 'in' k" := (bind_ m (fun _ => k))
  (at level 10, m at level 100, k at level 200) : py_scope.

(** The message of lines 176-177. *)
Definition closed_msg : string :=
  "Cannot get stream data while stream is closed.".

(** [assert c] *)
Definition assert_ {St} (c : bool) : Run St unit :=
  if c then ret_ tt else raise_ AssertionError.

(** A result of a conversion, as a step of a run. *)
Definition lift_ {St A} (r : res A) : Run St A := fun w => (r, w).

Section Class.

(** Python floats and the conversions [float(x)] and [int(x)] on them, the
    two status constants of [psychopy.constants], the sample arrays of PTB,
    and [AudioClip] of [psychopy/sound/_audioclip.py], taken as parameters.
    A conversion gives no number where Python raises. *)
Variable float : Type.
Variable float_of_Z : Z -> option float.
Variable float_of_str : string -> option float.
Variable int_of_float : float -> res Z.
Variable int_of_str : string -> option Z.
Variables NOT_STARTED STARTED : Z.
Variable Audio : Type.
Variable AudioClip : Type.
Variable mkAudioClip : Audio -> forall sampleRateHz : Z, AudioClip.

(** The values the constructor and the setter can be given. *)
Inductive value : Type :=
  | VNone
  | VBool (b : bool)
  | VInt (z : Z)
  | VFloat (x : float)
  | VStr (s : string).

(** [isinstance(v, (float, int))]; [bool] is a subclass of [int]. *)
Definition is_number (v : value) : bool :=
  match v with
  | VBool _ | VInt _ | VFloat _ => true
  | VNone | VStr _ => false
  end.

(** [float(v)] *)
Definition py_float (v : value) : res float :=
  match v with
  | VNone => Raise TypeError
  | VBool b =>
      match float_of_Z (if b then 1 else 0) with
      | Some x => Ok x
      | None => Raise OverflowError
      end
  | VInt z =>
      match float_of_Z z with
      | Some x => Ok x
      | None => Raise OverflowError
      end
  | VFloat x => Ok x
  | VStr s =>
      match float_of_str s with
      | Some x => Ok x
      | None => Raise ValueError
      end
  end.

(** [int(v)] *)
Definition py_int (v : value) : res Z :=
  match v with
  | VNone => Raise TypeError
  | VBool b => Ok (if b then 1 else 0)
  | VInt z => Ok z
  | VFloat x => int_of_float x
  | VStr s =>
      match int_of_str s with
      | Some z => Ok z
      | None => Raise ValueError
      end
  end.

(** A stream is known by the position of its creation in the log. *)
Inductive call : Type :=
  | Stream_new (mode : Z) (freq : Z) (channels : Z)
  | Stream_get_audio_data (h : nat) (secs : option float)
  | Stream_start (h : nat) (repetitions : Z) (stop_time : option float)
  | Stream_stop (h : nat)
  | Stream_close (h : nat).

(** What PTB does on a call, given the calls before it: the message of the
    exception it raises, if any, and the samples it hands out. *)
Variable ptb_raises : list call -> call -> option string.
Variable ptb_audio : list call -> Audio.

Record Microphone : Type := mkMicrophone {
  _device : value;
  _sampleRateHz : Z;
  _recBufferSecs : float;
  _mode : Z;
  _channels : Z;
  _stopTime : option float;
  _recording : option nat;
  _statusFlag : Z
}.

(** A call on PTB from a run whose state is the log. *)
Definition ptb (c : call) : Run (list call) unit :=
  fun w => match ptb_raises w c with
           | Some msg => (Raise (PTBError msg), w ++ [c])
           | None => (Ok tt, w ++ [c])
           end.

(** Lines 115-121, with the attributes the constructor has set. *)
Definition _createStream (mode freq channels : Z) : Run (list call) nat :=
  fun w => match ptb (Stream_new mode freq channels) w with
           | (Ok _, w') => (Ok (length w), w')
           | (Raise e, w') => (Raise e, w')
           end.

(** Lines 58-87. *)
Definition __init__ (device : value) (sampleRateHz : Z)
    (channels mode recBufferSecs : value) : Run (list call) Microphone :=
  exec! assert_ (is_number recBufferSecs) in
  run! secs := lift_ (py_float recBufferSecs) in
  run! m := lift_ (py_int mode) in
  run! ch := lift_ (py_int channels) in
  run! h := _createStream m sampleRateHz ch in
  exec! ptb (Stream_get_audio_data h (Some secs)) in
  ret_ (mkMicrophone device sampleRateHz secs m ch None (Some h) NOT_STARTED).

(** The object and the log, for the methods. *)
Record Env : Type := mkEnv {
  self : Microphone;
  calls : list call
}.

Definition on_ptb (c : call) : Run Env unit :=
  fun e => match ptb c (calls e) with
           | (r, w) => (r, mkEnv (self e) w)
           end.

(** [self._recording.method(...)]: [None] has no methods. *)
Definition on_recording (method : nat -> call) : Run Env unit :=
  fun e => match _recording (self e) with
           | Some h => on_ptb (method h) e
           | None => (Raise AttributeError, e)
           end.

Definition set_statusFlag (flag : Z) : Run Env unit :=
  fun e =>
    let m := self e in
    (Ok tt,
     mkEnv (mkMicrophone (_device m) (_sampleRateHz m) (_recBufferSecs m)
              (_mode m) (_channels m) (_stopTime m) (_recording m) flag)
           (calls e)).

Definition set_stopTime (x : float) : Run Env unit :=
  fun e =>
    let m := self e in
    (Ok tt,
     mkEnv (mkMicrophone (_device m) (_sampleRateHz m) (_recBufferSecs m)
              (_mode m) (_channels m) (Some x) (_recording m)
              (_statusFlag m))
           (calls e)).

(** Lines 123-129 and 131-137: the two getters. *)
Definition recordingBufferSecs (e : Env) : float := _recBufferSecs (self e).

Definition stopTime (e : Env) : option float := _stopTime (self e).

(** Lines 139-142: the setter of [stopTime]. *)
Definition stopTime_setter (v : value) : Run Env unit :=
  exec! assert_ (is_number v) in
  run! x := lift_ (py_float v) in
  set_stopTime x.

(** Lines 144-157. *)
Definition start : Run Env unit :=
  fun e =>
    (exec! (if _statusFlag (self e) =? STARTED then ret_ tt else ret_ tt) in
     exec! assert_ (bool_decide (is_Some (_recording (self e)))) in
     exec! on_recording (fun h => Stream_start h 0 (_stopTime (self e))) in
     set_statusFlag STARTED) e.

(** Lines 159-167. *)
Definition stop : Run Env unit :=
  exec! on_recording Stream_stop in
  set_statusFlag NOT_STARTED.

(** Lines 169-171. *)
Definition close : Run Env unit :=
  on_recording Stream_close.

(** Lines 173-184. *)
Definition getAudioClip : Run Env AudioClip :=
  fun e =>
    (if _statusFlag (self e) =? NOT_STARTED then
       raise_ (AudioStreamError closed_msg)
     else
       fun e0 =>
         (exec! on_recording (fun h => Stream_get_audio_data h None) in
          ret_ (mkAudioClip (ptb_audio (calls e0))
                            (_sampleRateHz (self e0)))) e0) e.

(** Lines 89-113.  PTB describes a device by a dict, and answers with one
    dict or with a list of them; [AudioDevice] is outside this file. *)
Variable Dev : Type.
Variable AudioDevice : Type.
Variable createFromPTBDeviceDesc : Dev -> AudioDevice.
Variable isCapture : AudioDevice -> bool.

Inductive devices : Type :=
  | OneDevice (d : Dev)
  | DeviceList (ds : list Dev).

Definition getDevices (platform : string)
    (get_devices : option Z -> devices) : list AudioDevice :=
  let allDevs :=
    get_devices (if bool_decide (platform = "win32") then Some 13 else None) in
  let allDevs :=
    match allDevs with
    | OneDevice d => [d]
    | DeviceList ds => ds
    end in
  filter (fun desc => isCapture desc = true)
         (createFromPTBDeviceDesc <$> allDevs).

End Class.

End Microphone.

(** The scenario without a [colorSpace] parameter, and a base class that
    did not define [fillColorSpace]. *)
Definition image_component_no_colorSpace : Component :=
  mkComponent (delete "colorSpace" (params image_component))
    (order image_component) (type image_component)
    (targets image_component) (url image_component).

Definition base_component_missing : Component :=
  mkComponent (delete "fillColorSpace" base_params) ["name"] "" [] "".

(** A microphone at 48 kHz on a PTB that raises nothing, with integers
    standing for floats, and the values [NOT_STARTED = 0] and [STARTED = 1]
    for the status constants. *)
Definition quiet_ptb : list (Microphone.call Z) -> Microphone.call Z ->
                       option string :=
  fun _ _ => None.

Definition silence : list (Microphone.call Z) -> list Z := fun _ => [].

Definition demo_microphone : Microphone.Microphone Z :=
  Microphone.mkMicrophone Z (Microphone.VNone Z) 48000 10 2 2 None
    (Some 0%nat) 0.

Definition demo_env : Microphone.Env Z :=
  Microphone.mkEnv Z demo_microphone
    [Microphone.Stream_new Z 2 48000 2;
     Microphone.Stream_get_audio_data Z 0 (Some 10)].

Definition demo_env_started : Microphone.Env Z :=
  Microphone.mkEnv Z
    (Microphone.mkMicrophone Z (Microphone.VNone Z) 48000 10 2 2 None
       (Some 0%nat) 1)
    (Microphone.calls Z demo_env ++ [Microphone.Stream_start Z 0 0 None]).

Definition demo_env_no_stream : Microphone.Env Z :=
  Microphone.mkEnv Z
    (Microphone.mkMicrophone Z (Microphone.VNone Z) 48000 10 2 2 None None 1)
    [].

(** Integers standing for floats, with a conversion that fails from [2^1024]
    on, where [float] raises [OverflowError]. *)
Definition bounded_float (z : Z) : option Z :=
  if bool_decide (Z.abs z < 2 ^ 1024) then Some z else None.

(** ** Strings *)

Lemma append_cons (x : Ascii.ascii) (a b : string) :
  String x a +:+ b = String x (a +:+ b).
Proof. reflexivity. Qed.

Lemma append_nil_l (b : string) : "" +:+ b = b.
Proof. reflexivity. Qed.

Lemma append_assoc (a b c : string) : (a +:+ b) +:+ c = a +:+ (b +:+ c).
Proof.
  induction a as [|x a IH]; [reflexivity|].
  rewrite !append_cons. by rewrite IH.
Qed.

Lemma append_nil_r (a : string) : a +:+ "" = a.
Proof.
  induction a as [|x a IH]; [reflexivity|].
  rewrite append_cons. by rewrite IH.
Qed.

Lemma append_inj_l (a b c : string) : a +:+ b = a +:+ c -> b = c.
Proof.
  induction a as [|x a IH]; [done|].
  rewrite !append_cons. intros [= H]. auto.
Qed.

Lemma append_length (a b : string) :
  String.length (a +:+ b) = (String.length a + String.length b)%nat.
Proof.
  induction a as [|x a IH]; [reflexivity|].
  rewrite append_cons. simpl. by rewrite IH.
Qed.

Lemma append_inj_r (a b c : string) : a +:+ c = b +:+ c -> a = b.
Proof.
  revert b. induction a as [|x a IH]; intros [|y b] H.
  - reflexivity.
  - apply (f_equal String.length) in H.
    rewrite append_nil_l, append_cons in H. simpl in H.
    rewrite append_length in H. lia.
  - apply (f_equal String.length) in H.
    rewrite append_nil_l, append_cons in H. simpl in H.
    rewrite append_length in H. lia.
  - rewrite !append_cons in H. injection H as -> H. f_equal. by apply IH.
Qed.

Lemma append_suffix_eq (a b c d : string) :
  String.length c = String.length d -> a +:+ c = b +:+ d -> c = d.
Proof.
  revert b. induction a as [|x a IH]; intros [|y b] Hlen H.
  - exact H.
  - apply (f_equal String.length) in H.
    rewrite append_nil_l, append_cons in H. simpl in H.
    rewrite append_length in H. lia.
  - apply (f_equal String.length) in H.
    rewrite append_nil_l, append_cons in H. simpl in H.
    rewrite append_length in H. lia.
  - rewrite !append_cons in H. injection H as _ H. by apply (IH b).
Qed.

Lemma occurs_append c a b : occurs c (a +:+ b) = occurs c a || occurs c b.
Proof.
  induction a as [|x a IH]; [reflexivity|].
  rewrite append_cons. simpl. rewrite IH. by rewrite orb_assoc.
Qed.

Lemma occurs_string_of_uint c d :
  occurs c (DecimalString.NilEmpty.string_of_uint d) = true ->
  occurs c "-.0123456789" = true.
Proof.
  induction d as [|d IH|d IH|d IH|d IH|d IH|d IH|d IH|d IH|d IH|d IH];
    simpl; intros H; [done|..];
    (apply orb_true_iff in H as [H | H];
     [apply bool_decide_eq_true in H; subst c; reflexivity | auto]).
Qed.

Lemma occurs_fmt1f c z :
  occurs c (fmt1f z) = true -> occurs c "-.0123456789" = true.
Proof.
  unfold fmt1f. rewrite occurs_append. intros H.
  apply orb_true_iff in H as [H | H].
  - destruct (Z.to_int z) as [d|d]; simpl in H.
    + destruct d; try (by apply (occurs_string_of_uint c) in H).
      simpl in H. apply orb_true_iff in H as [H | H]; [|done].
      apply bool_decide_eq_true in H. by subst c.
    + apply orb_true_iff in H as [H | H].
      { apply bool_decide_eq_true in H. by subst c. }
      destruct d; try (by apply (occurs_string_of_uint c) in H).
      simpl in H. apply orb_true_iff in H as [H | H]; [|done].
      apply bool_decide_eq_true in H. by subst c.
  - simpl in H. rewrite orb_false_r in H.
    apply orb_true_iff in H as [H | H];
      apply bool_decide_eq_true in H; by subst c.
Qed.

Lemma fmt1f_inj (z1 z2 : Z) : fmt1f z1 = fmt1f z2 -> z1 = z2.
Proof.
  unfold fmt1f. intros H. apply append_inj_r in H.
  assert (Hnn : forall z, Z.to_int z <> Decimal.Pos Decimal.Nil /\
                          Z.to_int z <> Decimal.Neg Decimal.Nil).
  { intros [|p|p]; simpl; split; try discriminate; intros [= E];
      by apply (DecimalPos.Unsigned.to_uint_nonnil p). }
  apply (f_equal DecimalString.NilZero.int_of_string) in H.
  rewrite !DecimalString.NilZero.isi in H by apply Hnn.
  injection H as H. by apply DecimalZ.to_int_inj.
Qed.

(** ** The store *)

Lemma grow_nil s : grow s [] = s.
Proof. destruct s as [h b l]. unfold grow. simpl. by rewrite app_nil_r. Qed.

Lemma grow_grow s a b : grow (grow s a) b = grow s (a ++ b).
Proof. unfold grow. simpl. by rewrite <- app_assoc. Qed.

Lemma wf_lookup ps h k l :
  wf ps h -> ps !! k = Some l -> is_Some (h !! l).
Proof. intros Hwf Hk. apply lookup_lt_is_Some. exact (Hwf k l Hk). Qed.

Lemma wf_grow ps h news : wf ps h -> wf ps (h ++ news).
Proof.
  intros Hwf k l Hk. specialize (Hwf k l Hk). simpl in *.
  rewrite length_app. lia.
Qed.

Lemma snapshot_lookup h ps k :
  snapshot h ps !! k = ps !! k ≫= (fun l => h !! l).
Proof. unfold snapshot. apply lookup_omap. Qed.

Lemma snapshot_grow ps h news :
  wf ps h -> snapshot (h ++ news) ps = snapshot h ps.
Proof.
  intros Hwf. apply map_eq. intros k. rewrite !snapshot_lookup.
  destruct (ps !! k) as [l|] eqn:Hk; simpl; [|done].
  apply lookup_app_l. exact (Hwf k l Hk).
Qed.

Lemma snapshot_wf_dom ps h k :
  wf ps h -> is_Some (snapshot h ps !! k) <-> is_Some (ps !! k).
Proof.
  intros Hwf. rewrite snapshot_lookup.
  destruct (ps !! k) as [l|] eqn:Hk; simpl.
  - split; [eauto | intros _; by eapply wf_lookup].
  - split; intros [? ?]; done.
Qed.

Ltac solve_elem :=
  repeat first [ apply list_elem_of_here | apply list_elem_of_further ].

Ltac elem_cases H :=
  repeat (apply elem_of_cons in H as [-> | H]); [..| by apply elem_of_nil in H].

Ltac solve_not_elem :=
  let H := fresh in
  intros H;
  repeat (apply elem_of_cons in H as [H|H]; [discriminate|]);
  by apply elem_of_nil in H.

Section Theory.

Context (Param_str : Param -> string)
        (initVal : Target -> string -> Param -> Param)
        (getPosInRoutine : Component -> positive)
        (_translate : string -> string).

(** *** Reading parameters *)

Lemma param_val_run ps k s :
  wf ps (heap s) ->
  param_val ps k s = (rbind (lookup_or_raise (snapshot (heap s) ps) k)
                            (fun p => Ok (val p)), s).
Proof.
  intros Hwf. unfold param_val, getitem, lookup_or_raise, bind.
  rewrite snapshot_lookup.
  destruct (ps !! k) as [l|] eqn:Hk; simpl; [|done].
  destruct (wf_lookup _ _ _ _ Hwf Hk) as [p Hp].
  unfold deref, ret. rewrite Hp. reflexivity.
Qed.

Lemma percent_s_run ps k s :
  wf ps (heap s) ->
  percent_s Param_str ps k s =
    (rbind (lookup_or_raise (snapshot (heap s) ps) k)
           (fun p => Ok (Param_str p)), s).
Proof.
  intros Hwf. unfold percent_s, getitem, lookup_or_raise, bind.
  rewrite snapshot_lookup.
  destruct (ps !! k) as [l|] eqn:Hk; simpl; [|done].
  destruct (wf_lookup _ _ _ _ Hwf Hk) as [p Hp].
  unfold deref, ret. rewrite Hp. reflexivity.
Qed.

(** *** [getInitVals]: fresh copies *)

Lemma copies_cons target h k l kvs :
  copies initVal target h ((k, l) :: kvs) =
    match h !! l with
    | Some p => initVal target k p :: copies initVal target h kvs
    | None => copies initVal target h kvs
    end.
Proof. unfold copies. simpl. by destruct (h !! l). Qed.

Lemma copies_app_heap target h news kvs :
  Forall (fun kl => (kl.2 < length h)%nat) kvs ->
  copies initVal target (h ++ news) kvs = copies initVal target h kvs.
Proof.
  induction 1 as [|[k l] kvs Hl _ IH]; [done|].
  rewrite !copies_cons, IH. simpl in Hl.
  by rewrite (lookup_app_l h news l Hl).
Qed.

Lemma copies_length target h kvs :
  Forall (fun kl => (kl.2 < length h)%nat) kvs ->
  length (copies initVal target h kvs) = length kvs.
Proof.
  induction 1 as [|[k l] kvs Hl _ IH]; [done|].
  rewrite copies_cons. simpl in Hl.
  destruct (lookup_lt_is_Some_2 h l Hl) as [p ->]. simpl. by rewrite IH.
Qed.

Lemma copy_params_run kvs target acc s :
  Forall (fun kl => (kl.2 < length (heap s))%nat) kvs ->
  copy_params initVal kvs target acc s =
    (Ok (copied kvs (length (heap s)) acc),
     grow s (copies initVal target (heap s) kvs)).
Proof.
  revert acc s. induction kvs as [|[k l] kvs IH]; intros acc s Hall.
  - simpl. unfold ret. by rewrite grow_nil.
  - apply Forall_cons in Hall as [Hl Hall]. simpl in Hl.
    destruct (lookup_lt_is_Some_2 _ _ Hl) as [p Hp].
    simpl. unfold bind at 1. unfold deref. rewrite Hp.
    unfold bind at 1. unfold alloc.
    set (s1 := mkState (heap s ++ [initVal target k p]) (buff s) (libs s)).
    assert (Hall1 : Forall (fun kl => (kl.2 < length (heap s1))%nat) kvs).
    { eapply Forall_impl; [exact Hall|]. intros [k' l'] H. simpl in *.
      rewrite length_app. lia. }
    rewrite (IH _ s1 Hall1). f_equal.
    + f_equal. f_equal. subst s1. simpl. rewrite length_app. simpl. lia.
    + change s1 with (grow s [initVal target k p]). rewrite grow_grow.
      f_equal. unfold grow at 1. simpl heap.
      rewrite (copies_app_heap target (heap s) _ kvs Hall).
      reflexivity.
Qed.

Lemma copied_lookup_notin kvs n acc k :
  k ∉ kvs.*1 -> copied kvs n acc !! k = acc !! k.
Proof.
  revert n acc. induction kvs as [|[k' l'] kvs IH]; intros n acc Hk; [done|].
  simpl in *. apply not_elem_of_cons in Hk as [Hne Hk].
  rewrite IH; [|done]. by rewrite lookup_insert_ne.
Qed.

Lemma copied_lookup kvs n acc i k l :
  NoDup kvs.*1 -> kvs !! i = Some (k, l) ->
  copied kvs n acc !! k = Some (SParam (n + i)).
Proof.
  revert n acc i. induction kvs as [|[k' l'] kvs IH]; intros n acc i Hnd Hi;
    [done|].
  simpl in Hnd. apply NoDup_cons in Hnd as [Hnotin Hnd].
  destruct i as [|i]; simpl in *.
  - injection Hi as -> ->. rewrite copied_lookup_notin; [|done].
    rewrite lookup_insert_eq. do 2 f_equal. lia.
  - rewrite (IH (S n) _ i Hnd Hi). do 2 f_equal. lia.
Qed.

Lemma copied_slots kvs n acc k sl :
  copied kvs n acc !! k = Some sl ->
  acc !! k = Some sl \/
  exists i l, kvs !! i = Some (k, l) /\ sl = SParam (n + i).
Proof.
  revert n acc. induction kvs as [|[k' l'] kvs IH]; intros n acc H;
    [by left|].
  simpl in H. apply IH in H as [H | (i & l & Hi & ->)].
  - rewrite lookup_insert in H. case_decide as Hd.
    + subst k'. injection H as <-. right. exists 0%nat, l'. split; [done|].
      f_equal. lia.
    + by left.
  - right. exists (S i), l. split; [done|]. f_equal. lia.
Qed.

Lemma copies_lookup target h kvs i k l :
  Forall (fun kl => (kl.2 < length h)%nat) kvs ->
  kvs !! i = Some (k, l) ->
  copies initVal target h kvs !! i = initVal target k <$> h !! l.
Proof.
  intros Hall. revert i.
  induction Hall as [|[k' l'] kvs Hl _ IH]; intros i Hi; [done|].
  rewrite copies_cons. simpl in Hl.
  destruct (lookup_lt_is_Some_2 h l' Hl) as [p' Hp'].
  rewrite Hp'. destruct i as [|i]; simpl in *.
  - injection Hi as -> ->. by rewrite Hp'.
  - by apply IH.
Qed.

Section GetInitVals.

Variables (ps : gmap string loc) (target : Target) (s : State).
Hypothesis Hwf : wf ps (heap s).

Local Abbreviation kvs := (map_to_list ps).
Local Abbreviation inits0 := (copied kvs (length (heap s)) ∅).
Local Abbreviation news := (copies initVal target (heap s) kvs).

Lemma kvs_valid : Forall (fun kl => (kl.2 < length (heap s))%nat) kvs.
Proof.
  apply Forall_forall. intros [k l] Hin. simpl.
  apply elem_of_map_to_list in Hin. exact (Hwf k l Hin).
Qed.

Lemma getInitVals_run :
  getInitVals initVal ps target s = (Ok inits0, grow s news).
Proof. unfold getInitVals. apply copy_params_run, kvs_valid. Qed.

Lemma inits0_Some k l p :
  ps !! k = Some l -> heap s !! l = Some p ->
  exists i, inits0 !! k = Some (SParam (length (heap s) + i)) /\
            news !! i = Some (initVal target k p).
Proof.
  intros Hk Hp. apply elem_of_map_to_list in Hk.
  apply list_elem_of_lookup in Hk as [i Hi]. exists i. split.
  - eapply copied_lookup; [apply NoDup_fst_map_to_list | exact Hi].
  - rewrite (copies_lookup _ _ _ _ _ _ kvs_valid Hi).
    by rewrite Hp.
Qed.

Lemma inits0_None k : ps !! k = None -> inits0 !! k = None.
Proof.
  intros Hk. rewrite copied_lookup_notin; [done|].
  intros Hin. apply list_elem_of_fmap in Hin as [[k' l] [-> Hin]].
  apply elem_of_map_to_list in Hin. simpl in *. congruence.
Qed.

Lemma inits0_slots k sl :
  inits0 !! k = Some sl ->
  exists i l, kvs !! i = Some (k, l) /\ sl = SParam (length (heap s) + i).
Proof.
  intros H. apply copied_slots in H as [H | H]; [done | exact H].
Qed.

Lemma inits0_inj : slots_inj inits0.
Proof.
  intros k1 k2 l H1 H2.
  apply inits0_slots in H1 as (i1 & l1 & Hi1 & E1).
  apply inits0_slots in H2 as (i2 & l2 & Hi2 & E2).
  injection E1 as ->. injection E2 as E2.
  assert (i1 = i2) as -> by lia. congruence.
Qed.

Lemma inits0_fresh k l :
  inits0 !! k = Some (SParam l) ->
  (length (heap s) <= l < length (heap s ++ news))%nat.
Proof.
  intros H. apply inits0_slots in H as (i & l' & Hi & E).
  injection E as ->. apply lookup_lt_Some in Hi.
  rewrite length_app. rewrite copies_length by apply kvs_valid.
  lia.
Qed.

Lemma news_length : length news = length kvs.
Proof. apply copies_length, kvs_valid. Qed.

End GetInitVals.

(** *** Formatting reads the store and leaves it as it is *)

Lemma str_slot_run sl s e :
  entry_of (heap s) sl = Some e ->
  str_slot Param_str sl s = (Ok (str_entry Param_str e), s).
Proof.
  destruct sl as [l|x]; simpl.
  - unfold bind, deref, ret. destruct (heap s !! l) as [p|]; [|done].
    simpl. by intros [= <-].
  - by intros [= <-].
Qed.

Lemma view_lookup h inits k :
  view h inits !! k = inits !! k ≫= entry_of h.
Proof. unfold view. apply lookup_omap. Qed.

Lemma format_run t inits u s :
  slots_valid inits (heap s) ->
  format Param_str t inits u s =
    (render Param_str t (view (heap s) inits) u, s).
Proof.
  intros Hv. induction t as [|[x|n|] t IH]; simpl.
  - reflexivity.
  - unfold bind at 1. rewrite IH.
    by destruct (render Param_str t (view (heap s) inits) u).
  - unfold bind at 1. unfold getitem, lookup_or_raise.
    rewrite view_lookup.
    destruct (inits !! n) as [sl|] eqn:Hn; simpl; [|done].
    destruct (Hv n sl Hn) as [e He]. rewrite He. unfold ret at 1.
    unfold bind at 1. rewrite (str_slot_run sl s e He).
    unfold bind at 1. rewrite IH.
    by destruct (render Param_str t (view (heap s) inits) u).
  - unfold bind at 1. rewrite IH.
    by destruct (render Param_str t (view (heap s) inits) u).
Qed.

(** *** The loop of lines 149-157 *)

Lemma js_coerce_run k inits s l p :
  inits !! k = Some (SParam l) -> heap s !! l = Some p ->
  js_coerce k inits s =
    (Ok (js_inits k p inits),
     mkState (js_heap l p (heap s)) (buff s) (libs s)).
Proof.
  intros Hk Hp. unfold js_coerce, js_inits, js_heap, coerceJS.
  unfold bind at 1. unfold getitem. rewrite Hk. unfold ret at 1.
  unfold bind at 1. simpl slot_val. unfold bind at 1, deref. rewrite Hp.
  unfold ret at 1.
  destruct (py_is (val p) (PBool true)).
  { unfold ret. by destruct s. }
  destruct (py_is (val p) (PBool false)).
  { unfold ret. by destruct s. }
  destruct (py_in (val p) sentinels).
  - unfold bind, ret. simpl. unfold modify. rewrite Hp. simpl.
    rewrite list_lookup_insert_eq by (by eapply lookup_lt_Some).
    by rewrite list_insert_insert_eq.
  - unfold ret. rewrite list_insert_id by done. by destruct s.
Qed.

Lemma js_heap_length l p h : length (js_heap l p h) = length h.
Proof. unfold js_heap. destruct (coerceJS p); [apply length_insert | done]. Qed.

Lemma js_heap_ne l p h l' : l ≠ l' -> js_heap l p h !! l' = h !! l'.
Proof.
  intros Hne. unfold js_heap.
  destruct (coerceJS p); [by apply list_lookup_insert_ne | done].
Qed.

Lemma js_inits_ne k p inits k' : k ≠ k' -> js_inits k p inits !! k' = inits !! k'.
Proof.
  intros Hne. unfold js_inits.
  destruct (coerceJS p); [done | by apply lookup_insert_ne].
Qed.

Lemma js_inits_inj k p inits : slots_inj inits -> slots_inj (js_inits k p inits).
Proof.
  intros Hinj k1 k2 l. unfold js_inits. destruct (coerceJS p); [apply Hinj|].
  rewrite !lookup_insert. repeat case_decide; try done. apply Hinj.
Qed.

Lemma js_entry k l p inits h :
  inits !! k = Some (SParam l) -> h !! l = Some p ->
  js_inits k p inits !! k ≫= entry_of (js_heap l p h) = Some (coerceJS p).
Proof.
  intros Hk Hp. unfold js_inits, js_heap. destruct (coerceJS p) as [q|b].
  - rewrite Hk. simpl.
    rewrite list_lookup_insert_eq by (by eapply lookup_lt_Some). done.
  - by rewrite lookup_insert_eq.
Qed.

Lemma for_keys_js ks : forall inits s,
  NoDup ks -> slots_inj inits ->
  (forall k, k ∈ ks ->
     exists l, inits !! k = Some (SParam l) /\ is_Some (heap s !! l)) ->
  exists inits' h',
    for_keys ks js_coerce inits s = (Ok inits', mkState h' (buff s) (libs s)) /\
    length h' = length (heap s) /\
    (forall l, (forall k, k ∈ ks -> inits !! k ≠ Some (SParam l)) ->
               h' !! l = heap s !! l) /\
    (forall k, k ∉ ks -> inits' !! k = inits !! k) /\
    (forall k l p, k ∈ ks -> inits !! k = Some (SParam l) ->
                   heap s !! l = Some p ->
                   inits' !! k ≫= entry_of h' = Some (coerceJS p)).
Proof.
  induction ks as [|k ks IH]; intros inits s Hnd Hinj Hks.
  - exists inits, (heap s). simpl. unfold ret. destruct s; simpl.
    repeat split; try done. intros k l p Hin. by apply elem_of_nil in Hin.
  - apply NoDup_cons in Hnd as [Hk Hnd].
    destruct (Hks k) as (l & Hl & [p Hp]); [by left|].
    simpl. unfold bind at 1. rewrite (js_coerce_run k inits s l p Hl Hp).
    set (s1 := mkState (js_heap l p (heap s)) (buff s) (libs s)).
    assert (Hother : forall k', k' ∈ ks -> k ≠ k').
    { intros k' Hin ->. done. }
    destruct (IH (js_inits k p inits) s1 Hnd (js_inits_inj _ _ _ Hinj))
      as (inits' & h' & Hrun & Hlen & Hheap & Hout & Hin).
    { intros k' Hk'. destruct (Hks k') as (l' & Hl' & Hsome); [by right|].
      exists l'. rewrite js_inits_ne by auto. split; [done|].
      simpl. apply lookup_lt_is_Some. rewrite js_heap_length.
      by apply lookup_lt_is_Some. }
    exists inits', h'. rewrite Hrun. simpl in *. split; [done|].
    split; [by rewrite Hlen, js_heap_length|].
    assert (Hl_private : forall k', k' ∈ ks ->
                js_inits k p inits !! k' ≠ Some (SParam l)).
    { intros k' Hk' H. rewrite js_inits_ne in H by auto.
      apply (Hother k' Hk'). by apply (Hinj k k' l). }
    split; [|split].
    + intros l0 Hl0. rewrite Hheap.
      * apply js_heap_ne. intros ->. apply (Hl0 k); [by left | done].
      * intros k' Hk'. rewrite js_inits_ne by auto. apply Hl0. by right.
    + intros k0 Hk0. apply not_elem_of_cons in Hk0 as [Hne Hk0].
      rewrite Hout by done. by apply js_inits_ne.
    + intros k0 l0 p0 Hk0 Hl0 Hp0. apply elem_of_cons in Hk0 as [-> | Hk0].
      * assert (l0 = l) as -> by congruence.
        assert (p0 = p) as -> by congruence.
        rewrite Hout by done.
        rewrite <- (js_entry k l p inits (heap s) Hl Hp).
        destruct (js_inits k p inits !! k) as [[l1|b]|] eqn:E; simpl; try done.
        f_equal. apply Hheap. intros k' Hk' H. unfold js_inits in E.
        destruct (coerceJS p).
        -- assert (l1 = l) as -> by congruence. by apply (Hl_private k' Hk').
        -- by rewrite lookup_insert_eq in E.
      * assert (k ≠ k0) as Hne by auto.
        assert (l ≠ l0) as Hlne.
        { intros ->. apply Hne. by apply (Hinj k k0 l0). }
        apply (Hin k0 l0 p0 Hk0).
        -- by rewrite js_inits_ne.
        -- by rewrite js_heap_ne.
Qed.

(** *** The resolved maps *)

Lemma entry_of_new h news n i q :
  n = length h -> news !! i = Some q ->
  entry_of (h ++ news) (SParam (n + i)) = Some (EParam q).
Proof.
  intros -> Hi. simpl. rewrite lookup_app_r by lia.
  replace (length h + i - length h)%nat with i by lia. by rewrite Hi.
Qed.

Lemma resolved_lookup target snap k :
  resolved initVal target snap !! k =
    match target with
    | PsychoPy => (fun p => EParam (initVal PsychoPy k p)) <$> snap !! k
    | PsychoJS => (fun p => coerceJS (initVal PsychoJS k p)) <$> snap !! k
    end.
Proof.
  destruct target; simpl; rewrite map_lookup_imap;
    by destruct (snap !! k).
Qed.

Lemma getInitVals_view ps s :
  wf ps (heap s) ->
  exists inits news,
    getInitVals initVal ps PsychoPy s = (Ok inits, grow s news) /\
    slots_valid inits (heap s ++ news) /\
    view (heap s ++ news) inits =
      resolved initVal PsychoPy (snapshot (heap s) ps).
Proof.
  intros Hwf.
  exists (copied (map_to_list ps) (length (heap s)) ∅),
         (copies initVal PsychoPy (heap s) (map_to_list ps)).
  split; [by apply getInitVals_run|]. split.
  - intros k sl Hk.
    destruct (inits0_slots ps s k sl Hk) as (i & l & Hi & ->).
    assert (Hps : ps !! k = Some l) by (by apply elem_of_map_to_list, list_elem_of_lookup_2 with i).
    destruct (wf_lookup _ _ _ _ Hwf Hps) as [p Hp].
    destruct (inits0_Some ps PsychoPy s Hwf k l p Hps Hp) as (i' & Hi' & Hnew).
    rewrite Hk in Hi'. injection Hi' as Hi'.
    assert (i' = i) as -> by lia.
    erewrite entry_of_new; [eauto | done | exact Hnew].
  - apply map_eq. intros k. rewrite view_lookup, resolved_lookup.
    rewrite snapshot_lookup.
    destruct (ps !! k) as [l|] eqn:Hps; simpl.
    + destruct (wf_lookup _ _ _ _ Hwf Hps) as [p Hp]. rewrite Hp. simpl.
      destruct (inits0_Some ps PsychoPy s Hwf k l p Hps Hp) as (i & Hi & Hnew).
      rewrite Hi. simpl option_bind.
      by apply entry_of_new.
    + by rewrite (inits0_None ps s k Hps).
Qed.

Lemma resolveJS_run self s :
  wf (params self) (heap s) ->
  exists inits news,
    resolveJS initVal self s = (Ok inits, grow s news) /\
    slots_valid inits (heap s ++ news) /\
    view (heap s ++ news) inits =
      resolved initVal PsychoJS (snapshot (heap s) (params self)).
Proof.
  intros Hwf. set (ps := params self).
  set (inits0 := copied (map_to_list ps) (length (heap s)) ∅).
  set (news := copies initVal PsychoJS (heap s) (map_to_list ps)).
  set (ks := (map_to_list inits0).*1).
  assert (Hks : forall k, k ∈ ks <-> is_Some (inits0 !! k)).
  { intros k. unfold ks. rewrite list_elem_of_fmap. split.
    - intros [[k' sl] [-> Hin]]. apply elem_of_map_to_list in Hin. eauto.
    - intros [sl Hsl]. exists (k, sl). split; [done|].
      by apply elem_of_map_to_list. }
  destruct (for_keys_js ks inits0 (grow s news))
    as (inits' & h' & Hrun & Hlen & Hheap & Hout & Hin).
  { apply NoDup_fst_map_to_list. }
  { apply inits0_inj. }
  { intros k [sl Hsl]%Hks.
    destruct (inits0_slots ps s k sl Hsl) as (i & l & Hi & ->).
    eexists. split; [exact Hsl|]. apply lookup_lt_is_Some.
    by apply (inits0_fresh ps PsychoJS s Hwf k). }
  simpl in Hrun, Hlen, Hheap, Hin.
  assert (Hold : take (length (heap s)) h' = heap s).
  { apply list_eq. intros l.
    destruct (decide (l < length (heap s))%nat) as [Hlt|Hge].
    - rewrite lookup_take_lt by done. rewrite Hheap.
      + by apply lookup_app_l.
      + intros k _ Hk.
        apply (inits0_fresh ps PsychoJS s Hwf k l) in Hk. lia.
    - rewrite lookup_take_ge by lia. symmetry. apply lookup_ge_None. lia. }
  exists inits', (drop (length (heap s)) h').
  assert (Hh' : heap s ++ drop (length (heap s)) h' = h').
  { rewrite <- Hold at 1. apply take_drop. }
  rewrite Hh'. split; [|split].
  - unfold resolveJS. fold ps. unfold bind at 1.
    rewrite (getInitVals_run ps PsychoJS s Hwf).
    fold inits0 news ks. rewrite Hrun. unfold grow. simpl. by rewrite Hh'.
  - intros k sl Hk. destruct (decide (k ∈ ks)) as [Hel|Hnel].
    + destruct (proj1 (Hks k) Hel) as [sl0 Hsl0].
      destruct (inits0_slots ps s k sl0 Hsl0) as (i & l & Hi & ->).
      assert (Hps : ps !! k = Some l) by (by apply elem_of_map_to_list, list_elem_of_lookup_2 with i).
      destruct (wf_lookup _ _ _ _ Hwf Hps) as [p Hp].
      destruct (inits0_Some ps PsychoJS s Hwf k l p Hps Hp) as (i' & Hi' & Hnew).
      fold inits0 in Hi'. fold news in Hnew.
      specialize (Hin k _ (initVal PsychoJS k p) Hel Hi').
      rewrite Hk in Hin. simpl in Hin. rewrite Hin; [eauto|].
      rewrite lookup_app_r by lia.
      replace (length (heap s) + i' - length (heap s))%nat with i' by lia.
      done.
    + rewrite Hout in Hk by done. exfalso. apply Hnel, Hks. eauto.
  - apply map_eq. intros k. rewrite view_lookup, resolved_lookup.
    rewrite snapshot_lookup.
    destruct (ps !! k) as [l|] eqn:Hps; simpl.
    + destruct (wf_lookup _ _ _ _ Hwf Hps) as [p Hp]. rewrite Hp. simpl.
      destruct (inits0_Some ps PsychoJS s Hwf k l p Hps Hp) as (i & Hi & Hnew).
      fold inits0 in Hi. fold news in Hnew.
      apply (Hin k (length (heap s) + i)%nat (initVal PsychoJS k p));
        [apply Hks; eauto | done |].
      rewrite lookup_app_r by lia.
      replace (length (heap s) + i - length (heap s))%nat with i by lia.
      done.
    + pose proof (inits0_None ps s k Hps) as Hnone. fold inits0 in Hnone.
      rewrite Hout; [by rewrite Hnone|].
      intros [sl Hsl]%Hks. by rewrite Hnone in Hsl.
Qed.

(** *** A pass computes [initCode] of the parameter values *)

Lemma units_clause_run target ps s pu :
  wf ps (heap s) -> snapshot (heap s) ps !! "units" = Some pu ->
  (if py_eq (val pu) (PStr "from exp settings")
   then ret (match target with PsychoPy => "" | PsychoJS => "units : undefined, " end)
   else let! x := percent_s Param_str ps "units" in
        ret ((match target with PsychoPy => "units=" | PsychoJS => "units : " end)
               +:+ x +:+ ", ")) s
  = (Ok (unitsClause Param_str target pu), s).
Proof.
  intros Hwf Hu. unfold unitsClause.
  destruct target; destruct (py_eq (val pu) (PStr "from exp settings"));
    try reflexivity;
    unfold bind; rewrite (percent_s_run ps "units" s Hwf);
    unfold lookup_or_raise; rewrite Hu; reflexivity.
Qed.

Lemma initCode_units_None target self snap :
  snap !! "units" = None ->
  initCode Param_str initVal getPosInRoutine target self snap =
    Raise (KeyError "units").
Proof. intros H. unfold initCode, lookup_or_raise. by rewrite H. Qed.

Lemma initCode_render_Raise target self snap pu e :
  snap !! "units" = Some pu ->
  render Param_str (template target) (resolved initVal target snap)
         (unitsClause Param_str target pu) = Raise e ->
  initCode Param_str initVal getPosInRoutine target self snap = Raise e.
Proof.
  intros H1 H2. unfold initCode, lookup_or_raise. rewrite H1. simpl.
  by rewrite H2.
Qed.

Lemma initCode_interpolate_None target self snap pu code :
  snap !! "units" = Some pu ->
  render Param_str (template target) (resolved initVal target snap)
         (unitsClause Param_str target pu) = Ok code ->
  snap !! "interpolate" = None ->
  initCode Param_str initVal getPosInRoutine target self snap =
    Raise (KeyError "interpolate").
Proof.
  intros H1 H2 H3. unfold initCode, lookup_or_raise. rewrite H1. simpl.
  rewrite H2. simpl. by rewrite H3.
Qed.

Lemma initCode_Ok target self snap pu code pi :
  snap !! "units" = Some pu ->
  render Param_str (template target) (resolved initVal target snap)
         (unitsClause Param_str target pu) = Ok code ->
  snap !! "interpolate" = Some pi ->
  initCode Param_str initVal getPosInRoutine target self snap =
    Ok (code +:+ interpolateClause target pi +:+
        depthClause getPosInRoutine target self).
Proof.
  intros H1 H2 H3. unfold initCode, lookup_or_raise. rewrite H1. simpl.
  rewrite H2. simpl. by rewrite H3.
Qed.

Theorem generate_run target self s :
  wf (params self) (heap s) ->
  let r := initCode Param_str initVal getPosInRoutine target self
             (snapshot (heap s) (params self)) in
  exists news,
    generate Param_str initVal getPosInRoutine target self s =
      (pass_result r,
       mkState (heap s ++ news) (buff s ++ pass_out r) (libs s)).
Proof.
  intros Hwf r. set (ps := params self) in *.
  set (snap := snapshot (heap s) ps) in *.
  assert (Hnil : mkState (heap s ++ []) (buff s ++ []) (libs s) = s).
  { destruct s. simpl. by rewrite !app_nil_r. }
  destruct (snap !! "units") as [pu|] eqn:Hu.
  2:{ exists []. subst r. rewrite (initCode_units_None _ _ _ Hu). simpl.
      rewrite Hnil.
      destruct target; simpl; unfold writeInitCode, writeInitCodeJS;
        fold ps; unfold bind at 1; rewrite (param_val_run ps "units" s Hwf);
        fold snap; unfold lookup_or_raise; by rewrite Hu. }
  assert (Hres : exists inits news,
    (match target with
     | PsychoPy => getInitVals initVal ps PsychoPy
     | PsychoJS => resolveJS initVal self
     end) s = (Ok inits, grow s news) /\
    slots_valid inits (heap s ++ news) /\
    view (heap s ++ news) inits = resolved initVal target snap).
  { destruct target; [by apply getInitVals_view | by apply resolveJS_run]. }
  destruct Hres as (inits & news & Hres & Hvalid & Hview).
  exists news.
  assert (Hwf' : wf ps (heap (grow s news))) by (by apply wf_grow).
  assert (Hsnap' : snapshot (heap (grow s news)) ps = snap)
    by (by apply snapshot_grow).
  subst r.
  destruct target; simpl generate; unfold writeInitCode, writeInitCodeJS;
    fold ps;
    (unfold bind at 1; rewrite (param_val_run ps "units" s Hwf); fold snap;
     unfold lookup_or_raise at 1; rewrite Hu; simpl rbind;
     unfold bind at 1;
     first [ rewrite (units_clause_run PsychoPy ps s pu Hwf Hu)
           | rewrite (units_clause_run PsychoJS ps s pu Hwf Hu) ];
     unfold bind at 1; rewrite Hres;
     unfold bind at 1; rewrite (format_run _ inits _ (grow s news) Hvalid);
     simpl heap; rewrite Hview).
  - destruct (render Param_str nativeTemplate (resolved initVal PsychoPy snap)
                (unitsClause Param_str PsychoPy pu)) as [code|e] eqn:Hrender.
    2:{ rewrite (initCode_render_Raise PsychoPy _ _ _ _ Hu Hrender).
        simpl. by rewrite app_nil_r. }
    unfold bind at 1.
    rewrite (param_val_run ps "interpolate" _ Hwf'). rewrite Hsnap'.
    unfold lookup_or_raise.
    destruct (snap !! "interpolate") as [pi|] eqn:Hi.
    2:{ rewrite (initCode_interpolate_None PsychoPy _ _ _ _ Hu Hrender Hi).
        simpl. by rewrite app_nil_r. }
    rewrite (initCode_Ok PsychoPy _ _ _ _ _ Hu Hrender Hi).
    simpl. unfold writeIndentedLines. simpl. do 3 f_equal.
    destruct (py_eq (val pi) (PStr "linear")); by rewrite append_assoc.
  - destruct (render Param_str jsTemplate (resolved initVal PsychoJS snap)
                (unitsClause Param_str PsychoJS pu)) as [code|e] eqn:Hrender.
    2:{ rewrite (initCode_render_Raise PsychoJS _ _ _ _ Hu Hrender).
        simpl. by rewrite app_nil_r. }
    unfold bind at 1.
    rewrite (param_val_run ps "interpolate" _ Hwf'). rewrite Hsnap'.
    unfold lookup_or_raise.
    destruct (snap !! "interpolate") as [pi|] eqn:Hi.
    2:{ rewrite (initCode_interpolate_None PsychoJS _ _ _ _ Hu Hrender Hi).
        simpl. by rewrite app_nil_r. }
    rewrite (initCode_Ok PsychoJS _ _ _ _ _ Hu Hrender Hi).
    simpl. unfold writeIndentedLines. simpl. do 3 f_equal.
    destruct (py_eq (val pi) (PStr "linear")); by rewrite append_assoc.
Qed.

(** *** Rendering a format string *)

Lemma render_ext t v v' u :
  (forall n, n ∈ fields t -> v !! n = v' !! n) ->
  render Param_str t v u = render Param_str t v' u.
Proof.
  induction t as [|[x|n|] t IH]; intros Hagree; simpl in *.
  - reflexivity.
  - by rewrite IH.
  - unfold lookup_or_raise. rewrite <- (Hagree n) by (by left).
    rewrite IH; [done|]. intros m Hm. apply Hagree. by right.
  - by rewrite IH.
Qed.

Lemma render_app t1 t2 v u :
  render Param_str (t1 ++ t2) v u =
    rbind (render Param_str t1 v u) (fun a =>
    rbind (render Param_str t2 v u) (fun b => Ok (a +:+ b))).
Proof.
  induction t1 as [|[x|n|] t1 IH]; simpl.
  - by destruct (render Param_str t2 v u).
  - rewrite IH. destruct (render Param_str t1 v u) as [a|]; simpl; [|done].
    destruct (render Param_str t2 v u) as [b|]; simpl; [|done].
    by rewrite append_assoc.
  - destruct (lookup_or_raise v n) as [e|]; simpl; [|done].
    rewrite IH. destruct (render Param_str t1 v u) as [a|]; simpl; [|done].
    destruct (render Param_str t2 v u) as [b|]; simpl; [|done].
    by rewrite append_assoc.
  - rewrite IH. destruct (render Param_str t1 v u) as [a|]; simpl; [|done].
    destruct (render Param_str t2 v u) as [b|]; simpl; [|done].
    by rewrite append_assoc.
Qed.

Lemma render_no_units t v u u' :
  Units ∉ t -> render Param_str t v u = render Param_str t v u'.
Proof.
  induction t as [|[x|n|] t IH]; intros Hnot; simpl.
  - reflexivity.
  - rewrite IH; [done|]. intros H. apply Hnot. by right.
  - rewrite IH; [done|]. intros H. apply Hnot. by right.
  - exfalso. apply Hnot. by left.
Qed.

Lemma render_ok t v u :
  (forall n, n ∈ fields t -> is_Some (v !! n)) ->
  exists code, render Param_str t v u = Ok code.
Proof.
  induction t as [|[x|n|] t IH]; intros Hall; simpl in *.
  - eauto.
  - destruct (IH Hall) as [r ->]. simpl. eauto.
  - destruct (Hall n) as [e He]; [by left|].
    unfold lookup_or_raise. rewrite He. simpl.
    destruct IH as [r ->]; [|simpl; eauto].
    intros m Hm. apply Hall. by right.
  - destruct (IH Hall) as [r ->]. simpl. eauto.
Qed.

Lemma template_split target :
  template target = headPieces target ++ Units :: tailPieces target.
Proof. by destruct target. Qed.

Lemma head_no_units target : Units ∉ headPieces target.
Proof.
  destruct target; unfold headPieces; simpl; intros H;
    repeat (apply elem_of_cons in H as [H|H]; [discriminate|]);
    by apply elem_of_nil in H.
Qed.

Lemma tail_no_units target : Units ∉ tailPieces target.
Proof.
  destruct target; unfold tailPieces; simpl; intros H;
    repeat (apply elem_of_cons in H as [H|H]; [discriminate|]);
    by apply elem_of_nil in H.
Qed.

Lemma render_template target v u :
  render Param_str (template target) v u =
    rbind (render Param_str (headPieces target) v "") (fun a =>
    rbind (render Param_str (tailPieces target) v "") (fun b =>
    Ok (a +:+ u +:+ b))).
Proof.
  rewrite template_split, render_app. simpl.
  rewrite (render_no_units (headPieces target) v u "")
    by apply head_no_units.
  rewrite (render_no_units (tailPieces target) v u "")
    by apply tail_no_units.
  destruct (render Param_str (headPieces target) v "") as [a|]; simpl; [|done].
  by destruct (render Param_str (tailPieces target) v "") as [b|].
Qed.

(** The text before and after the units clause, and the whole statement. *)
Lemma initCode_frame target self snap pu pi :
  snap !! "units" = Some pu -> snap !! "interpolate" = Some pi ->
  initCode Param_str initVal getPosInRoutine target self snap =
    rbind (render Param_str (headPieces target) (resolved initVal target snap) "")
      (fun pre =>
    rbind (render Param_str (tailPieces target) (resolved initVal target snap) "")
      (fun post =>
    Ok (pre +:+ unitsClause Param_str target pu +:+ post +:+
        interpolateClause target pi +:+
        depthClause getPosInRoutine target self))).
Proof.
  intros Hu Hi. unfold initCode, lookup_or_raise. rewrite Hu, Hi. simpl.
  rewrite render_template.
  destruct (render Param_str (headPieces target) _ "") as [a|]; simpl; [|done].
  destruct (render Param_str (tailPieces target) _ "") as [b|]; simpl; [|done].
  by rewrite !append_assoc.
Qed.

Lemma resolved_insert_ne target snap k p n :
  k ≠ n ->
  resolved initVal target (<[k := p]> snap) !! n =
  resolved initVal target snap !! n.
Proof.
  intros Hne. rewrite !resolved_lookup. by rewrite lookup_insert_ne.
Qed.

Lemma render_pieces_insert target snap k p t u :
  k ∉ fields t ->
  render Param_str t (resolved initVal target (<[k := p]> snap)) u =
  render Param_str t (resolved initVal target snap) u.
Proof.
  intros Hk. apply render_ext. intros n Hn. apply resolved_insert_ne.
  intros ->. done.
Qed.

(** *** Editing one parameter *)

Lemma snapshot_edit ps h k l p :
  ps !! k = Some l -> (l < length h)%nat ->
  (forall k', ps !! k' = Some l -> k' = k) ->
  snapshot (<[l := p]> h) ps = <[k := p]> (snapshot h ps).
Proof.
  intros Hk Hl Hpriv. apply map_eq. intros n.
  rewrite snapshot_lookup, lookup_insert. case_decide as Hd.
  - subst n. rewrite Hk. simpl. by apply list_lookup_insert_eq.
  - rewrite snapshot_lookup. destruct (ps !! n) as [l'|] eqn:Hn; simpl; [|done].
    apply list_lookup_insert_ne. intros ->. apply Hd. symmetry.
    by apply Hpriv.
Qed.

Lemma wf_edit ps h l p : wf ps h -> wf ps (<[l := p]> h).
Proof.
  intros Hwf k l' Hk. simpl. rewrite length_insert. exact (Hwf k l' Hk).
Qed.

Lemma fields_free target k :
  k = "units" \/ k = "interpolate" ->
  (k ∉ fields (headPieces target)) /\ (k ∉ fields (tailPieces target)).
Proof.
  intros [-> | ->]; destruct target; split; unfold headPieces, tailPieces;
    simpl; intros H;
    repeat (apply elem_of_cons in H as [H|H]; [discriminate|]);
    by apply elem_of_nil in H.
Qed.

(** A pass that succeeds has rendered both halves of the format string and
    has read the two parameters that the emitters test. *)
Lemma generate_Ok_inv target self s s1 :
  wf (params self) (heap s) ->
  generate Param_str initVal getPosInRoutine target self s = (Ok tt, s1) ->
  let snap := snapshot (heap s) (params self) in
  exists pre post pu pi,
    snap !! "units" = Some pu /\ snap !! "interpolate" = Some pi /\
    render Param_str (headPieces target) (resolved initVal target snap) ""
      = Ok pre /\
    render Param_str (tailPieces target) (resolved initVal target snap) ""
      = Ok post /\
    buff s1 = buff s ++
      [pre +:+ unitsClause Param_str target pu +:+ post +:+
       interpolateClause target pi +:+
       depthClause getPosInRoutine target self].
Proof.
  intros Hwf Hrun snap.
  destruct (generate_run target self s Hwf) as [news Hgen].
  rewrite Hrun in Hgen. fold snap in Hgen.
  destruct (snap !! "units") as [pu|] eqn:Hu.
  2:{ rewrite (initCode_units_None _ _ _ Hu) in Hgen. discriminate. }
  destruct (snap !! "interpolate") as [pi|] eqn:Hi.
  2:{ unfold initCode, lookup_or_raise in Hgen. rewrite Hu, Hi in Hgen.
      simpl in Hgen.
      destruct (render Param_str (template target) _ _); discriminate. }
  rewrite (initCode_frame _ _ _ _ _ Hu Hi) in Hgen.
  destruct (render Param_str (headPieces target) _ "") as [pre|];
    [|discriminate].
  destruct (render Param_str (tailPieces target) _ "") as [post|];
    [|discriminate].
  simpl in Hgen. injection Hgen as ->. simpl.
  exists pre, post, pu, pi. done.
Qed.

(** Replacing the units parameter, or the interpolate parameter, changes
    its clause and nothing else. *)
Lemma generate_edit target self s k l p pre post pu pi :
  wf (params self) (heap s) ->
  k = "units" \/ k = "interpolate" ->
  params self !! k = Some l ->
  (forall k', params self !! k' = Some l -> k' = k) ->
  let snap := snapshot (heap s) (params self) in
  snap !! "units" = Some pu -> snap !! "interpolate" = Some pi ->
  render Param_str (headPieces target) (resolved initVal target snap) ""
    = Ok pre ->
  render Param_str (tailPieces target) (resolved initVal target snap) ""
    = Ok post ->
  exists news,
    generate Param_str initVal getPosInRoutine target self (edit l p s) =
      (Ok tt,
       mkState (heap (edit l p s) ++ news)
         (buff s ++
          [pre +:+
           unitsClause Param_str target (if decide (k = "units") then p else pu)
           +:+ post +:+
           interpolateClause target
             (if decide (k = "interpolate") then p else pi) +:+
           depthClause getPosInRoutine target self])
         (libs s)).
Proof.
  intros Hwf Hk Hl Hpriv snap Hu Hi Hpre Hpost.
  assert (Hwf' : wf (params self) (heap (edit l p s))) by (by apply wf_edit).
  destruct (generate_run target self (edit l p s) Hwf') as [news Hgen].
  exists news. rewrite Hgen. clear Hgen. simpl heap.
  rewrite (snapshot_edit (params self) (heap s) k l p Hl (Hwf k l Hl) Hpriv).
  fold snap.
  destruct (fields_free target k Hk) as [Hfh Hft].
  rewrite (initCode_frame target self (<[k := p]> snap)
             (if decide (k = "units") then p else pu)
             (if decide (k = "interpolate") then p else pi)).
  - rewrite !render_pieces_insert by done. rewrite Hpre, Hpost. done.
  - rewrite lookup_insert. destruct Hk as [-> | ->]; by repeat case_decide.
  - rewrite lookup_insert. destruct Hk as [-> | ->]; by repeat case_decide.
Qed.

Lemma generate_edit_units target self s s1 lu :
  wf (params self) (heap s) ->
  params self !! "units" = Some lu ->
  (forall k, params self !! k = Some lu -> k = "units") ->
  generate Param_str initVal getPosInRoutine target self s = (Ok tt, s1) ->
  exists pre post, forall pu, exists news,
    generate Param_str initVal getPosInRoutine target self (edit lu pu s) =
      (Ok tt,
       mkState (heap (edit lu pu s) ++ news)
         (buff s ++ [pre +:+ unitsClause Param_str target pu +:+ post])
         (libs s)).
Proof.
  intros Hwf Hlu Hpriv Hrun.
  destruct (generate_Ok_inv target self s s1 Hwf Hrun)
    as (pre & post & pu0 & pi & Hu & Hi & Hpre & Hpost & _).
  exists pre, (post +:+ interpolateClause target pi +:+
               depthClause getPosInRoutine target self).
  intros pu.
  destruct (generate_edit target self s "units" lu pu pre post pu0 pi
              Hwf (or_introl eq_refl) Hlu Hpriv Hu Hi Hpre Hpost)
    as [news Hgen].
  exists news. rewrite Hgen. repeat case_decide; done.
Qed.

(** *** The units clause *)

(** C6.  The Native statement is [pre ++ clause ++ post], where [pre] and
    [post] do not depend on the units parameter: whatever object the editing
    layer puts in its place, the clause is empty when its value equals
    ["from exp settings"], so that nothing stands between [pre] and [post],
    and it is [units=<the parameter as text>, ] for any other value. *)
Theorem C6_native_units_clause self s s1 lu :
  wf (params self) (heap s) ->
  params self !! "units" = Some lu ->
  (forall k, params self !! k = Some lu -> k = "units") ->
  writeInitCode Param_str initVal getPosInRoutine self s = (Ok tt, s1) ->
  exists pre post, forall pu, exists news,
    writeInitCode Param_str initVal getPosInRoutine self (edit lu pu s) =
      (Ok tt,
       mkState (heap (edit lu pu s) ++ news)
         (buff s ++
          [pre +:+
           (if py_eq (val pu) (PStr "from exp settings") then ""
            else "units=" +:+ Param_str pu +:+ ", ") +:+ post])
         (libs s)).
Proof.
  intros Hwf Hlu Hpriv Hrun.
  exact (generate_edit_units PsychoPy self s s1 lu Hwf Hlu Hpriv Hrun).
Qed.

(** C2, as the code has it.  The Web emitter reads the fields of the Native
    emitter, in the same order, the colour space apart; its statement is
    [pre ++ clause ++ post] with [pre] and [post] independent of the units
    parameter, and the clause is never left out: it is
    [units : undefined, ] when the value equals ["from exp settings"] and
    [units : <the parameter as text>, ] for any other value. *)
Theorem C2_web_units_clause self s s1 lu :
  wf (params self) (heap s) ->
  params self !! "units" = Some lu ->
  (forall k, params self !! k = Some lu -> k = "units") ->
  writeInitCodeJS Param_str initVal getPosInRoutine self s = (Ok tt, s1) ->
  filter (fun n => n ≠ "colorSpace") (fields jsTemplate) =
    filter (fun n => n ≠ "colorSpace") (fields nativeTemplate) /\
  exists pre post, forall pu, exists news,
    writeInitCodeJS Param_str initVal getPosInRoutine self (edit lu pu s) =
      (Ok tt,
       mkState (heap (edit lu pu s) ++ news)
         (buff s ++
          [pre +:+
           (if py_eq (val pu) (PStr "from exp settings")
            then "units : undefined, "
            else "units : " +:+ Param_str pu +:+ ", ") +:+ post])
         (libs s)).
Proof.
  intros Hwf Hlu Hpriv Hrun. split; [by vm_compute|].
  exact (generate_edit_units PsychoJS self s s1 lu Hwf Hlu Hpriv Hrun).
Qed.

Lemma sentinel_not_exp_settings v :
  py_in v sentinels = true -> py_eq v (PStr "from exp settings") = false.
Proof.
  destruct v as [|b|z|x|r]; try done. simpl. intros H.
  apply bool_decide_eq_false. intros ->. by vm_compute in H.
Qed.

(** C9.  In the Web statement the units clause is the text of the source
    parameter itself.  For a units value in the sentinel set the clause is
    [units : <the parameter as text>, ]; the text [units : undefined, ]
    stands at the same place only for the value ["from exp settings"]. *)
Theorem C9_web_units_raw self s s1 lu :
  wf (params self) (heap s) ->
  params self !! "units" = Some lu ->
  (forall k, params self !! k = Some lu -> k = "units") ->
  writeInitCodeJS Param_str initVal getPosInRoutine self s = (Ok tt, s1) ->
  exists pre post,
    (forall pu, py_in (val pu) sentinels = true ->
       exists news,
         writeInitCodeJS Param_str initVal getPosInRoutine self
             (edit lu pu s) =
           (Ok tt,
            mkState (heap (edit lu pu s) ++ news)
              (buff s ++ [pre +:+ ("units : " +:+ Param_str pu +:+ ", ")
                              +:+ post])
              (libs s))) /\
    (forall pu, val pu = PStr "from exp settings" ->
       exists news,
         writeInitCodeJS Param_str initVal getPosInRoutine self
             (edit lu pu s) =
           (Ok tt,
            mkState (heap (edit lu pu s) ++ news)
              (buff s ++ [pre +:+ "units : undefined, " +:+ post])
              (libs s))).
Proof.
  intros Hwf Hlu Hpriv Hrun.
  destruct (generate_edit_units PsychoJS self s s1 lu Hwf Hlu Hpriv Hrun)
    as (pre & post & Hall).
  exists pre, post. split; intros pu Hpu; destruct (Hall pu) as [news Hgen];
    exists news; simpl in Hgen; rewrite Hgen; unfold unitsClause.
  - by rewrite (sentinel_not_exp_settings _ Hpu).
  - by rewrite Hpu.
Qed.

(** *** The interpolate field *)


(** *** The resolved map of the Web target *)

Lemma resolveJS_entry self s k l p :
  wf (params self) (heap s) ->
  params self !! k = Some l -> heap s !! l = Some p ->
  exists inits news,
    resolveJS initVal self s = (Ok inits, grow s news) /\
    inits !! k ≫= entry_of (heap s ++ news) =
      Some (coerceJS (initVal PsychoJS k p)).
Proof.
  intros Hwf Hk Hp.
  destruct (resolveJS_run self s Hwf) as (inits & news & Hrun & _ & Hview).
  exists inits, news. split; [done|].
  rewrite <- view_lookup, Hview, resolved_lookup, snapshot_lookup, Hk.
  simpl. by rewrite Hp.
Qed.

Lemma sentinel_not_bool v b :
  py_in v sentinels = true -> py_is v (PBool b) = false.
Proof. by destruct v. Qed.

Lemma coerceJS_sentinel p :
  py_in (val p) sentinels = true ->
  coerceJS p = EParam (set_val (PStr "undefined") (set_valType "code" p)).
Proof.
  intros H. unfold coerceJS.
  by rewrite !(sentinel_not_bool _ _ H), H.
Qed.

Lemma entry_of_EParam h sl q :
  entry_of h sl = Some (EParam q) -> exists l, sl = SParam l /\ h !! l = Some q.
Proof.
  destruct sl as [l|x]; simpl; [|done].
  destruct (h !! l) as [q'|] eqn:E; simpl; [|done].
  intros [= ->]. eauto.
Qed.

Lemma entry_of_EStr h sl x : entry_of h sl = Some (EStr x) -> sl = SStr x.
Proof.
  destruct sl as [l|y]; simpl.
  - by destruct (h !! l).
  - by intros [= ->].
Qed.

(** C1.  A parameter whose value, as [getInitVals] hands it to the loop of
    lines 149-157, lies in the sentinel set is resolved to an object of
    value [undefined] and type [code]; what the format string substitutes
    for it is the bare text [undefined], given that a [code] parameter is
    rendered as its raw text. *)
Theorem C1_sentinel_to_undefined self s k l p :
  wf (params self) (heap s) ->
  params self !! k = Some l -> heap s !! l = Some p ->
  py_in (val (initVal PsychoJS k p)) sentinels = true ->
  (forall q, valType q = "code" -> val q = PStr "undefined" ->
             Param_str q = "undefined") ->
  exists inits news l' q,
    resolveJS initVal self s = (Ok inits, grow s news) /\
    inits !! k = Some (SParam l') /\
    heap (grow s news) !! l' = Some q /\
    val q = PStr "undefined" /\ valType q = "code" /\
    str_slot Param_str (SParam l') (grow s news) =
      (Ok "undefined", grow s news).
Proof.
  intros Hwf Hk Hp Hsent Hcode.
  destruct (resolveJS_entry self s k l p Hwf Hk Hp)
    as (inits & news & Hrun & Hentry).
  rewrite (coerceJS_sentinel _ Hsent) in Hentry.
  destruct (inits !! k) as [sl|] eqn:Hsl; simpl in Hentry; [|done].
  destruct (entry_of_EParam _ _ _ Hentry) as (l' & -> & Hl').
  exists inits, news, l',
    (set_val (PStr "undefined") (set_valType "code" (initVal PsychoJS k p))).
  repeat split; try done.
  rewrite (str_slot_run (SParam l') (grow s news) _ Hentry). simpl.
  by rewrite Hcode.
Qed.

(** C10.  An entry of the resolved map is replaced by the text [true] or
    [false] exactly when the value is the boolean [True] or [False].  A
    parameter whose value is the string ['True'] or ['False'] keeps its
    object, unchanged, and is substituted as that object renders. *)
Theorem C10_bool_by_identity self s k l p :
  wf (params self) (heap s) ->
  params self !! k = Some l -> heap s !! l = Some p ->
  exists inits news,
    resolveJS initVal self s = (Ok inits, grow s news) /\
    (forall x, inits !! k = Some (SStr x) <->
       (val (initVal PsychoJS k p) = PBool true /\ x = "true") \/
       (val (initVal PsychoJS k p) = PBool false /\ x = "false")) /\
    (val (initVal PsychoJS k p) = PStr "True" \/
     val (initVal PsychoJS k p) = PStr "False" ->
     exists l',
       inits !! k = Some (SParam l') /\
       heap (grow s news) !! l' = Some (initVal PsychoJS k p) /\
       str_slot Param_str (SParam l') (grow s news) =
         (Ok (Param_str (initVal PsychoJS k p)), grow s news)).
Proof.
  intros Hwf Hk Hp.
  destruct (resolveJS_entry self s k l p Hwf Hk Hp)
    as (inits & news & Hrun & Hentry).
  exists inits, news. split; [done|].
  set (q := initVal PsychoJS k p) in *.
  destruct (inits !! k) as [sl|] eqn:Hsl; simpl in Hentry; [|done].
  split.
  - intros x. unfold coerceJS in Hentry. split.
    + intros [= ->]. simpl in Hentry. injection Hentry as Hentry.
      destruct (val q) as [|[|]|z|y|r]; vm_compute in Hentry;
        repeat (match type of Hentry with
                | context [if ?c then _ else _] => destruct c
                end);
        try discriminate; injection Hentry as ->; eauto.
    + intros [[Hv ->] | [Hv ->]]; rewrite Hv in Hentry; simpl in Hentry;
        f_equal; by apply (entry_of_EStr _ _ _ Hentry).
  - intros Hv.
    assert (Hc : coerceJS q = EParam q).
    { unfold coerceJS. by destruct Hv as [-> | ->]. }
    rewrite Hc in Hentry.
    destruct (entry_of_EParam _ _ _ Hentry) as (l' & -> & Hl').
    exists l'. repeat split; try done.
    by rewrite (str_slot_run (SParam l') (grow s news) _ Hentry).
Qed.

(** *** Two passes in a row *)

(** C3.  A pass leaves every object of the store as it was and only adds
    objects of its own; it appends its text, or nothing when it raises.  A
    second pass on the store the first one leaves has the same result and
    appends the same text, and the parameters of the component still hold
    the values they had before the first pass. *)
Theorem C3_generate_twice target self s :
  wf (params self) (heap s) ->
  exists r out news1 news2,
    generate Param_str initVal getPosInRoutine target self s =
      (r, mkState (heap s ++ news1) (buff s ++ out) (libs s)) /\
    generate Param_str initVal getPosInRoutine target self
        (mkState (heap s ++ news1) (buff s ++ out) (libs s)) =
      (r, mkState (heap s ++ news1 ++ news2) (buff s ++ out ++ out) (libs s)) /\
    (forall k l p, params self !! k = Some l -> heap s !! l = Some p ->
       (heap s ++ news1) !! l = Some p /\
       (heap s ++ news1 ++ news2) !! l = Some p) /\
    ((exists e, r = Raise e /\ out = []) \/
     (exists code, r = Ok tt /\ out = [code])).
Proof.
  intros Hwf.
  destruct (generate_run target self s Hwf) as [news1 H1].
  set (r := initCode Param_str initVal getPosInRoutine target self
              (snapshot (heap s) (params self))) in *.
  set (s1 := mkState (heap s ++ news1) (buff s ++ pass_out r) (libs s)).
  assert (Hwf1 : wf (params self) (heap s1)) by (by apply wf_grow).
  destruct (generate_run target self s1 Hwf1) as [news2 H2].
  simpl in H2. rewrite (snapshot_grow _ _ _ Hwf) in H2. fold r in H2.
  exists (pass_result r), (pass_out r), news1, news2.
  split; [exact H1|]. split; [|split].
  - fold s1. rewrite H2. by rewrite <- !app_assoc.
  - intros k l p Hk Hp. pose proof (Hwf k l Hk) as Hlt. simpl in Hlt.
    by rewrite !lookup_app_l.
  - destruct r as [code|e]; simpl; eauto.
Qed.

(** *** Depth and closing tokens *)

Lemma generate_Ok_depth target self s s1 :
  wf (params self) (heap s) ->
  generate Param_str initVal getPosInRoutine target self s = (Ok tt, s1) ->
  exists pre,
    buff s1 = buff s ++ [pre +:+ depthClause getPosInRoutine target self].
Proof.
  intros Hwf Hrun.
  destruct (generate_Ok_inv target self s s1 Hwf Hrun)
    as (pre & post & pu & pi & _ & _ & _ & _ & Hbuff).
  exists (pre +:+ unitsClause Param_str target pu +:+ post +:+
          interpolateClause target pi).
  rewrite Hbuff. by rewrite !append_assoc.
Qed.

Lemma fmt1f_ends z : exists digits, fmt1f z = digits +:+ ".0".
Proof. unfold fmt1f. eauto. Qed.

(** *** The constructor *)

Lemma delitem_run {V} (d : gmap string V) k v s :
  d !! k = Some v -> delitem d k s = (Ok (delete k d), s).
Proof. intros H. unfold delitem. by rewrite H. Qed.

Lemma ImageComponent_init_run self s image mask interpolate texRes
    flipVert flipHoriz :
  (forall k, k ∈ deleted -> is_Some (params self !! k)) ->
  exists c news,
    ImageComponent_init _translate self image mask interpolate texRes
        flipVert flipHoriz s =
      (Ok c, mkState (heap s ++ news) (buff s) (libs s ++ ["visual"])) /\
    length news = 6%nat /\
    let n := length (heap s) in
    params c =
      delete "borderColorSpace" (delete "borderColor"
        (delete "fillColorSpace" (delete "fillColor"
          (<["flipHoriz" := (n + 5)%nat]> (<["flipVert" := (n + 4)%nat]>
            (<["interpolate" := (n + 3)%nat]>
              (<["texture resolution" := (n + 2)%nat]>
                (<["mask" := (n + 1)%nat]>
                  (<["image" := n]> (params self)))))))))).
Proof.
  intros Hdel.
  destruct (Hdel "fillColor") as [l1 H1]; [repeat constructor|].
  destruct (Hdel "fillColorSpace") as [l2 H2]; [repeat constructor|].
  destruct (Hdel "borderColor") as [l3 H3]; [repeat constructor|].
  destruct (Hdel "borderColorSpace") as [l4 H4]; [repeat constructor|].
  unfold ImageComponent_init.
  unfold bind at 1. unfold requirePsychopyLibs at 1.
  repeat (unfold bind at 1; unfold alloc at 1; simpl heap; simpl buff;
          simpl libs).
  rewrite !length_app. simpl length.
  unfold bind at 1. erewrite delitem_run;
    [|rewrite !lookup_insert_ne by done; exact H1].
  unfold bind at 1. erewrite delitem_run;
    [|rewrite lookup_delete_ne by done;
      rewrite !lookup_insert_ne by done; exact H2].
  unfold bind at 1. erewrite delitem_run;
    [|rewrite !lookup_delete_ne by done;
      rewrite !lookup_insert_ne by done; exact H3].
  unfold bind at 1. erewrite delitem_run;
    [|rewrite !lookup_delete_ne by done;
      rewrite !lookup_insert_ne by done; exact H4].
  unfold ret. rewrite <- !app_assoc. simpl app.
  eexists _, _. split; [reflexivity|]. split; [reflexivity|].
  simpl. rewrite <- !Nat.add_assoc. simpl. reflexivity.
Qed.

Lemma initCode_ok target self snap :
  (forall n, n ∈ "units" :: "interpolate" :: fields (template target) ->
             is_Some (snap !! n)) ->
  exists code,
    initCode Param_str initVal getPosInRoutine target self snap = Ok code.
Proof.
  intros Hall.
  destruct (Hall "units") as [pu Hu]; [by left|].
  destruct (Hall "interpolate") as [pi Hi]; [by right; left|].
  destruct (render_ok (template target) (resolved initVal target snap)
              (unitsClause Param_str target pu)) as [code Hcode].
  { intros n Hn. rewrite resolved_lookup.
    destruct (Hall n) as [p Hp]; [by do 2 right|]. rewrite Hp.
    destruct target; simpl; eauto. }
  eexists. by apply (initCode_Ok target self snap pu code pi).
Qed.

(** C7.  The constructor succeeds on a component that the base class has
    given its parameters, and leaves none of the four deleted names in the
    mapping.  Both emitters then run to the end on the component, with no
    [KeyError]: neither format string has a field or a literal text naming a
    deleted parameter, and the two parameters read directly are not among
    them. *)
Theorem C7_deleted_params_unreferenced self s image mask interpolate texRes
    flipVert flipHoriz :
  wf (params self) (heap s) ->
  (forall k, k ∈ inherited ++ deleted -> is_Some (params self !! k)) ->
  exists c s1,
    ImageComponent_init _translate self image mask interpolate texRes
        flipVert flipHoriz s = (Ok c, s1) /\
    (forall k, k ∈ deleted -> params c !! k = None) /\
    (forall target, exists code s2,
       generate Param_str initVal getPosInRoutine target c s1 = (Ok tt, s2) /\
       buff s2 = buff s1 ++ [code]) /\
    (forall target k, k ∈ deleted ->
       (k ∉ "units" :: "interpolate" :: fields (template target)) /\
       forallb (fun lit => negb (contains k lit))
               (literals (template target)) = true).
Proof.
  intros Hwf Hbase.
  destruct (ImageComponent_init_run self s image mask interpolate texRes
              flipVert flipHoriz) as (c & news & Hrun & Hlen & Hps).
  { intros k Hk. apply Hbase. apply elem_of_app. by right. }
  simpl in Hps.
  set (s1 := mkState (heap s ++ news) (buff s) (libs s ++ ["visual"])) in *.
  exists c, s1. split; [exact Hrun|].
  assert (Hdeleted : forall k, k ∈ deleted -> params c !! k = None).
  { intros k Hk. rewrite Hps. unfold deleted in Hk. elem_cases Hk;
      repeat first [ apply lookup_delete_eq
                   | rewrite lookup_delete_ne by done ]. }
  split; [exact Hdeleted|].
  assert (Hwf1 : wf (params c) (heap s1)).
  { unfold wf. rewrite Hps. simpl heap.
    repeat apply map_Forall_delete.
    repeat (apply map_Forall_insert_2; [rewrite length_app; lia|]).
    by apply wf_grow. }
  split.
  - intros target.
    destruct (generate_run target c s1 Hwf1) as [news1 Hgen].
    destruct (initCode_ok target c (snapshot (heap s1) (params c)))
      as [code Hcode].
    { intros n Hn. apply (snapshot_wf_dom _ _ _ Hwf1). rewrite Hps.
      destruct target; simpl in Hn; elem_cases Hn;
        repeat (rewrite lookup_delete_ne by done);
        repeat first [ rewrite lookup_insert_eq; by eauto
                     | rewrite lookup_insert_ne by done ];
        apply Hbase; unfold inherited, deleted; simpl; solve_elem. }
    rewrite Hcode in Hgen. simpl in Hgen.
    eexists code, _. split; [exact Hgen | reflexivity].
  - intros target k Hk. unfold deleted in Hk.
    destruct target; elem_cases Hk;
      (split;
       [ simpl; intros H;
         repeat (apply elem_of_cons in H as [H|H]; [discriminate|]);
         by apply elem_of_nil in H
       | by vm_compute ]).
Qed.

(** *** Which names a pass needs *)

Lemma render_Ok_fields t v u code :
  render Param_str t v u = Ok code ->
  forall n, n ∈ fields t -> is_Some (v !! n).
Proof.
  revert code. induction t as [|[x|m|] t IH]; intros code H n Hn; simpl in *.
  - by apply elem_of_nil in Hn.
  - destruct (render Param_str t v u) as [r|]; [|done]. by eapply IH.
  - unfold lookup_or_raise in H. destruct (v !! m) as [e|] eqn:Hm; [|done].
    simpl in H. destruct (render Param_str t v u) as [r|]; [|done].
    apply elem_of_cons in Hn as [-> | Hn]; [by rewrite Hm | by eapply IH].
  - destruct (render Param_str t v u) as [r|]; [|done]. by eapply IH.
Qed.

Lemma render_Raise_field t v u e :
  render Param_str t v u = Raise e ->
  exists n, n ∈ fields t /\ e = KeyError n /\ v !! n = None.
Proof.
  induction t as [|[x|m|] t IH]; intros H; simpl in *.
  - done.
  - destruct (render Param_str t v u) as [r|]; [done|].
    injection H as <-. by apply IH.
  - unfold lookup_or_raise in H. destruct (v !! m) as [e'|] eqn:Hm.
    + simpl in H. destruct (render Param_str t v u) as [r|]; [done|].
      injection H as <-. destruct IH as (n & Hn & ? & ?); [done|].
      exists n. split; [by right | done].
    + injection H as <-. exists m. split; [by left | done].
  - destruct (render Param_str t v u) as [r|]; [done|].
    injection H as <-. by apply IH.
Qed.

Lemma render_first_missing t1 n t2 v u :
  (forall m, m ∈ fields t1 -> is_Some (v !! m)) -> v !! n = None ->
  render Param_str (t1 ++ Fld n :: t2) v u = Raise (KeyError n).
Proof.
  induction t1 as [|[x|m|] t1 IH]; intros Hall Hn; simpl in *.
  - unfold lookup_or_raise. by rewrite Hn.
  - by rewrite IH.
  - destruct (Hall m) as [e He]; [by left|].
    unfold lookup_or_raise at 1. rewrite He. simpl.
    rewrite IH; [done | | done]. intros m' Hm'. apply Hall. by right.
  - by rewrite IH.
Qed.

Lemma resolved_is_Some target snap n :
  is_Some (resolved initVal target snap !! n) <-> is_Some (snap !! n).
Proof.
  rewrite resolved_lookup. destruct target; destruct (snap !! n); simpl;
    split; intros [? ?]; eauto; done.
Qed.

Lemma initCode_Ok_required target self snap code :
  initCode Param_str initVal getPosInRoutine target self snap = Ok code ->
  forall n, n ∈ required target -> is_Some (snap !! n).
Proof.
  intros H n Hn. unfold initCode, lookup_or_raise in H.
  destruct (snap !! "units") as [pu|] eqn:Hu; [|done]. simpl in H.
  destruct (render Param_str (template target) _ _) as [c|] eqn:Hr; [|done].
  simpl in H. destruct (snap !! "interpolate") as [pi|] eqn:Hi; [|done].
  unfold required in Hn.
  apply elem_of_cons in Hn as [-> | Hn]; [by rewrite Hu|].
  apply elem_of_cons in Hn as [-> | Hn]; [by rewrite Hi|].
  apply resolved_is_Some with target. by eapply render_Ok_fields.
Qed.

Lemma initCode_Raise_required target self snap e :
  initCode Param_str initVal getPosInRoutine target self snap = Raise e ->
  exists n, n ∈ required target /\ e = KeyError n /\ snap !! n = None.
Proof.
  intros H. unfold initCode, lookup_or_raise in H. unfold required.
  destruct (snap !! "units") as [pu|] eqn:Hu.
  2:{ injection H as <-. exists "units". split; [by left | done]. }
  simpl in H.
  destruct (render Param_str (template target) _ _) as [c|] eqn:Hr.
  - simpl in H. destruct (snap !! "interpolate") as [pi|] eqn:Hi; [done|].
    injection H as <-. exists "interpolate". split; [by right; left | done].
  - injection H as <-.
    destruct (render_Raise_field _ _ _ _ Hr) as (n & Hn & -> & Hnone).
    exists n. split; [by do 2 right|]. split; [done|].
    destruct (snap !! n) eqn:E; [|done].
    assert (is_Some (resolved initVal target snap !! n)) as [? Hs]
      by (apply resolved_is_Some; eauto).
    congruence.
Qed.

Lemma generate_Ok_of_required target self s :
  wf (params self) (heap s) ->
  (forall n, n ∈ required target -> is_Some (params self !! n)) ->
  (generate Param_str initVal getPosInRoutine target self s).1 = Ok tt.
Proof.
  intros Hwf Hall.
  destruct (generate_run target self s Hwf) as [news Hgen]. rewrite Hgen.
  destruct (initCode_ok target self (snapshot (heap s) (params self)))
    as [code ->]; [|done].
  intros n Hn. apply (snapshot_wf_dom _ _ n Hwf). by apply Hall.
Qed.

Lemma required_web_native n :
  n ∈ required PsychoJS -> n ∈ required PsychoPy.
Proof.
  intros H. unfold required in *. simpl in *. elem_cases H; by solve_elem.
Qed.

Lemma generate_returns target self s :
  wf (params self) (heap s) ->
  (forall n, n ∈ required PsychoPy -> is_Some (params self !! n)) ->
  exists s1,
    generate Param_str initVal getPosInRoutine target self s = (Ok tt, s1).
Proof.
  intros Hwf Hall.
  assert (H : (generate Param_str initVal getPosInRoutine target self s).1
              = Ok tt).
  { apply generate_Ok_of_required; [done|]. intros n Hn. apply Hall.
    destruct target; [done | by apply required_web_native]. }
  destruct (generate _ _ _ _ _ _) as [r s1]. simpl in H. subst r. eauto.
Qed.

Lemma render_occurs c t v u code :
  render Param_str t v u = Ok code ->
  (forall lit, lit ∈ literals t -> occurs c lit = false) ->
  (forall n e, v !! n = Some e -> occurs c (str_entry Param_str e) = false) ->
  occurs c u = false ->
  occurs c code = false.
Proof.
  intros Hr Hl Hf Hu. revert code Hr Hl.
  induction t as [|p t IH]; intros code Hr Hl; simpl in Hr.
  - by injection Hr as <-.
  - destruct p as [lit|n|].
    + destruct (render Param_str t v u) as [r|] eqn:E; [|done].
      simpl in Hr. injection Hr as <-. rewrite occurs_append.
      rewrite (Hl lit) by (simpl; by left). simpl.
      apply IH; [done|]. intros l Hin. apply Hl. simpl. by right.
    + unfold lookup_or_raise in Hr.
      destruct (v !! n) as [e|] eqn:Hv; [|done]. simpl in Hr.
      destruct (render Param_str t v u) as [r|] eqn:E; [|done].
      simpl in Hr. injection Hr as <-. rewrite occurs_append.
      rewrite (Hf n e Hv). simpl. by apply IH.
    + destruct (render Param_str t v u) as [r|] eqn:E; [|done].
      simpl in Hr. injection Hr as <-. rewrite occurs_append, Hu. simpl.
      by apply IH.
Qed.

(** C4.  On a component that has the parameters the emitters read, both
    emitters return, and the statement of either target ends with the depth
    clause, whose number is [-p] printed with one decimal, [p] being the
    position of the component in its routine; the number is the same for
    both targets and differs for components at different positions.
    Positions are taken below [2^53], where [fmt1f] is what [%.1f]
    prints. *)
Theorem C4_depth_is_minus_position self s :
  wf (params self) (heap s) ->
  Z.pos (getPosInRoutine self) < 2 ^ 53 ->
  (forall n, n ∈ required PsychoPy -> is_Some (params self !! n)) ->
  (exists pre sn,
     writeInitCode Param_str initVal getPosInRoutine self s = (Ok tt, sn) /\
     buff sn = buff s ++
       [pre +:+ ", depth=" +:+
        fmt1f (- Z.pos (getPosInRoutine self)) +:+ ")" +:+ nl]) /\
  (exists pre sj,
     writeInitCodeJS Param_str initVal getPosInRoutine self s = (Ok tt, sj) /\
     buff sj = buff s ++
       [pre +:+ ", depth : " +:+
        fmt1f (- Z.pos (getPosInRoutine self)) +:+ " " +:+ nl +:+
        "});" +:+ nl]) /\
  (forall other,
     Z.pos (getPosInRoutine other) < 2 ^ 53 ->
     getPosInRoutine other ≠ getPosInRoutine self ->
     fmt1f (- Z.pos (getPosInRoutine other)) ≠
     fmt1f (- Z.pos (getPosInRoutine self))) /\
  fmt1f (- 1) = "-1.0" /\ fmt1f (- 2) = "-2.0".
Proof.
  intros Hwf _ Hall. split; [|split; [|split; [|split; reflexivity]]].
  - destruct (generate_returns PsychoPy self s Hwf Hall) as [sn Hn].
    destruct (generate_Ok_depth PsychoPy self s sn Hwf Hn) as [pre Hbuff].
    exists pre, sn. split; [exact Hn | exact Hbuff].
  - destruct (generate_returns PsychoJS self s Hwf Hall) as [sj Hj].
    destruct (generate_Ok_depth PsychoJS self s sj Hwf Hj) as [pre Hbuff].
    exists pre, sj. split; [exact Hj | exact Hbuff].
  - intros other _ Hne Heq. apply fmt1f_inj in Heq. apply Hne. lia.
Qed.

(** C8.  On a component that has the parameters the emitters read, both
    emitters return.  The Web statement ends with [});] and a newline.  The
    Native statement for the same component ends with the depth and one
    closing parenthesis, [.0)] and a newline: it does not end with a
    semicolon or with [});], and a semicolon or a closing brace occurs in
    it only if it occurs in the text of a parameter of the component, so
    that no literal text the Native emitter writes holds one. *)
Theorem C8_closing_tokens self s :
  wf (params self) (heap s) ->
  (forall n, n ∈ required PsychoPy -> is_Some (params self !! n)) ->
  (exists pre sj,
     writeInitCodeJS Param_str initVal getPosInRoutine self s = (Ok tt, sj) /\
     buff sj = buff s ++ [pre +:+ "});" +:+ nl]) /\
  (exists code pre sn,
     writeInitCode Param_str initVal getPosInRoutine self s = (Ok tt, sn) /\
     buff sn = buff s ++ [code] /\ code = pre +:+ ".0)" +:+ nl /\
     (forall y, code ≠ y +:+ ";" +:+ nl) /\
     (forall y, code ≠ y +:+ "});" +:+ nl) /\
     (forall c, c ∈ [";"; "}"]%char ->
        (forall k l p, params self !! k = Some l -> heap s !! l = Some p ->
           occurs c (Param_str p) = false /\
           occurs c (Param_str (initVal PsychoPy k p)) = false) ->
        occurs c code = false)) /\
  forallb (fun lit => negb (contains ";" lit) && negb (contains "}" lit))
          nativeLiterals = true.
Proof.
  intros Hwf Hall. split; [|split; [|by vm_compute]].
  - destruct (generate_returns PsychoJS self s Hwf Hall) as [sj Hj].
    destruct (generate_Ok_depth PsychoJS self s sj Hwf Hj) as [pre Hbuff].
    exists (pre +:+ ", depth : " +:+ depthStr getPosInRoutine self +:+ " "
            +:+ nl), sj.
    split; [exact Hj|].
    rewrite Hbuff. unfold depthClause. by rewrite !append_assoc.
  - destruct (generate_returns PsychoPy self s Hwf Hall) as [sn Hn].
    destruct (generate_Ok_inv PsychoPy self s sn Hwf Hn)
      as (pre & post & pu & pi & Hu & Hi & Hpre & Hpost & Hbuff).
    destruct (fmt1f_ends (- Z.pos (getPosInRoutine self))) as [digits Hd].
    set (body := pre +:+ unitsClause Param_str PsychoPy pu +:+ post +:+
                 interpolateClause PsychoPy pi) in *.
    eexists. exists (body +:+ ", depth=" +:+ digits), sn.
    split; [exact Hn|].
    assert (Hb : buff sn = buff s ++
                   [body +:+ depthClause getPosInRoutine PsychoPy self]).
    { rewrite Hbuff. unfold body. by rewrite !append_assoc. }
    split; [exact Hb|].
    assert (Hcode : body +:+ depthClause getPosInRoutine PsychoPy self =
                    (body +:+ ", depth=" +:+ digits) +:+ ".0)" +:+ nl).
    { unfold depthClause, depthStr. rewrite Hd. by rewrite !append_assoc. }
    split; [exact Hcode|]. rewrite Hcode.
    split; [|split].
    + intros y Hy.
      replace ((body +:+ ", depth=" +:+ digits) +:+ ".0)" +:+ nl)
        with ((body +:+ ", depth=" +:+ digits +:+ ".0") +:+ (")" +:+ nl)) in Hy
        by (by rewrite !append_assoc).
      apply append_suffix_eq in Hy; [discriminate | reflexivity].
    + intros y Hy.
      replace ((body +:+ ", depth=" +:+ digits) +:+ ".0)" +:+ nl)
        with ((body +:+ ", depth=" +:+ digits +:+ ".0") +:+ (")" +:+ nl)) in Hy
        by (by rewrite !append_assoc).
      replace (y +:+ "});" +:+ nl) with ((y +:+ "})") +:+ (";" +:+ nl)) in Hy
        by (by rewrite !append_assoc).
      apply append_suffix_eq in Hy; [discriminate | reflexivity].
    + intros c Hc Hpar. rewrite <- Hcode.
      assert (Hsnap : forall k p,
                snapshot (heap s) (params self) !! k = Some p ->
                occurs c (Param_str p) = false /\
                occurs c (Param_str (initVal PsychoPy k p)) = false).
      { intros k p Hk. rewrite snapshot_lookup in Hk.
        destruct (params self !! k) as [l|] eqn:Hl; [|done]. simpl in Hk.
        by apply (Hpar k l p). }
      assert (Hres : forall n e,
                resolved initVal PsychoPy
                  (snapshot (heap s) (params self)) !! n = Some e ->
                occurs c (str_entry Param_str e) = false).
      { intros n e He. rewrite resolved_lookup in He.
        destruct (snapshot (heap s) (params self) !! n) as [p|] eqn:Hp;
          [|done].
        simpl in He. injection He as <-. simpl. by apply (Hsnap n p). }
      assert (Hdigits : occurs c (fmt1f (- Z.pos (getPosInRoutine self)))
                        = false).
      { destruct (occurs c (fmt1f _)) eqn:E; [|done].
        apply occurs_fmt1f in E. elem_cases Hc; by vm_compute in E. }
      assert (Hlits : forall t, t = headPieces PsychoPy \/
                                t = tailPieces PsychoPy ->
                forall lit, lit ∈ literals t -> occurs c lit = false).
      { intros t Ht lit Hlit.
        destruct Ht as [-> | ->]; vm_compute in Hlit;
          elem_cases Hlit; elem_cases Hc; by vm_compute. }
      unfold body, depthClause, depthStr. rewrite !occurs_append.
      rewrite (render_occurs c _ _ _ _ Hpre) by eauto.
      rewrite (render_occurs c _ _ _ _ Hpost) by eauto.
      rewrite Hdigits.
      assert (Hunits : occurs c (unitsClause Param_str PsychoPy pu) = false).
      { unfold unitsClause. destruct (py_eq _ _); [done|].
        rewrite !occurs_append. rewrite (proj1 (Hsnap _ _ Hu)).
        elem_cases Hc; by vm_compute. }
      rewrite Hunits.
      unfold interpolateClause.
      destruct (py_eq _ _); elem_cases Hc; by vm_compute.
Qed.

(** X1.  A pass succeeds exactly when the mapping has every name it reads.
    When a name is missing the pass raises [KeyError] for a missing name it
    reads and the buffer stays as it was. *)
Theorem generate_Ok_iff_required target self s :
  wf (params self) (heap s) ->
  let out := generate Param_str initVal getPosInRoutine target self s in
  (out.1 = Ok tt <->
     forall n, n ∈ required target -> is_Some (params self !! n)) /\
  (forall e, out.1 = Raise e ->
     buff out.2 = buff s /\
     exists n, n ∈ required target /\ e = KeyError n /\
               params self !! n = None) /\
  libs out.2 = libs s.
Proof.
  intros Hwf out. subst out.
  destruct (generate_run target self s Hwf) as [news Hgen]. rewrite Hgen.
  simpl. set (snap := snapshot (heap s) (params self)).
  split; [|split; [|done]].
  - split.
    + intros Hok n Hn. apply (snapshot_wf_dom _ _ n Hwf). fold snap.
      destruct (initCode _ _ _ target self snap) as [code|] eqn:Hc; [|done].
      by eapply initCode_Ok_required.
    + intros Hall.
      destruct (initCode_ok target self snap) as [code ->]; [|done].
      intros n Hn. apply (snapshot_wf_dom _ _ n Hwf). by apply Hall.
  - intros e He.
    destruct (initCode _ _ _ target self snap) as [code|e'] eqn:Hc; [done|].
    simpl in He. injection He as ->. split; [simpl; by rewrite app_nil_r|].
    destruct (initCode_Raise_required _ _ _ _ Hc) as (n & Hn & -> & Hnone).
    exists n. split; [done|]. split; [done|].
    destruct (params self !! n) eqn:E; [|done].
    assert (is_Some (snap !! n)) as [? Hs]
      by (apply (snapshot_wf_dom _ _ n Hwf); eauto).
    congruence.
Qed.

Lemma native_render_colorSpace v u :
  (forall m, m ∈ fields (take 18 nativeTemplate) -> is_Some (v !! m)) ->
  v !! "colorSpace" = None ->
  render Param_str nativeTemplate v u = Raise (KeyError "colorSpace").
Proof.
  intros Hall Hcs.
  change nativeTemplate with
    (take 18 nativeTemplate ++ Fld "colorSpace" :: drop 19 nativeTemplate)
    at 1.
  by apply render_first_missing.
Qed.

(** X2.  The Native format string reads [colorSpace] and the Web one does
    not: on a component that has every name the Web pass reads but no
    [colorSpace], the Web pass succeeds and the Native pass raises
    [KeyError] for [colorSpace], appending nothing. *)
Theorem colorSpace_native_only self s :
  wf (params self) (heap s) ->
  (forall n, n ∈ required PsychoJS -> is_Some (params self !! n)) ->
  params self !! "colorSpace" = None ->
  (writeInitCodeJS Param_str initVal getPosInRoutine self s).1 = Ok tt /\
  (writeInitCode Param_str initVal getPosInRoutine self s).1 =
    Raise (KeyError "colorSpace") /\
  buff (writeInitCode Param_str initVal getPosInRoutine self s).2 = buff s.
Proof.
  intros Hwf Hall Hcs. split.
  - by apply (generate_Ok_of_required PsychoJS self s Hwf).
  - destruct (generate_run PsychoPy self s Hwf) as [news Hgen].
    simpl generate in Hgen. rewrite Hgen. simpl.
    set (snap := snapshot (heap s) (params self)).
    assert (Hsnap : forall n, n ∈ required PsychoJS -> is_Some (snap !! n)).
    { intros n Hn. apply (snapshot_wf_dom _ _ n Hwf). by apply Hall. }
    assert (Hc : initCode Param_str initVal getPosInRoutine PsychoPy self snap
                 = Raise (KeyError "colorSpace")).
    { destruct (Hsnap "units") as [pu Hu]; [by left|].
      unfold initCode, lookup_or_raise. rewrite Hu. unfold rbind at 1.
      change (template PsychoPy) with nativeTemplate.
      rewrite native_render_colorSpace; [done| |].
      - intros m Hm. apply resolved_is_Some, Hsnap. unfold required.
        simpl in Hm |- *. elem_cases Hm; solve_elem.
      - rewrite resolved_lookup.
        assert (snap !! "colorSpace" = None) as ->; [|done].
        destruct (snap !! "colorSpace") eqn:E; [|done].
        assert (is_Some (params self !! "colorSpace")) as [? ?]
          by (apply (snapshot_wf_dom _ _ _ Hwf); eauto).
        congruence. }
    rewrite Hc. simpl. by rewrite app_nil_r.
Qed.

(** *** Parameters a pass does not read *)

Lemma initCode_insert_unread target self snap k p :
  k ∉ required target ->
  initCode Param_str initVal getPosInRoutine target self (<[k := p]> snap) =
  initCode Param_str initVal getPosInRoutine target self snap.
Proof.
  intros Hk. unfold required in Hk.
  apply not_elem_of_cons in Hk as [Hu Hk].
  apply not_elem_of_cons in Hk as [Hi Hk].
  unfold initCode, lookup_or_raise.
  rewrite !lookup_insert_ne by done.
  destruct (snap !! "units") as [pu|]; [|done]. simpl.
  by rewrite render_pieces_insert.
Qed.

(** X3.  A pass reads no other parameter: replacing the object of a
    parameter that is not among the names the pass reads changes neither the
    result of the pass nor the text it appends. *)
Theorem generate_ignores_unread target self s k l p :
  wf (params self) (heap s) ->
  params self !! k = Some l ->
  (forall k', params self !! k' = Some l -> k' = k) ->
  k ∉ required target ->
  (generate Param_str initVal getPosInRoutine target self (edit l p s)).1 =
    (generate Param_str initVal getPosInRoutine target self s).1 /\
  buff (generate Param_str initVal getPosInRoutine target self
          (edit l p s)).2 =
    buff (generate Param_str initVal getPosInRoutine target self s).2.
Proof.
  intros Hwf Hk Hpriv Hunread.
  destruct (generate_run target self s Hwf) as [news Hgen].
  assert (Hwf' : wf (params self) (heap (edit l p s))) by (by apply wf_edit).
  destruct (generate_run target self (edit l p s) Hwf') as [news' Hgen'].
  rewrite Hgen, Hgen'. simpl.
  rewrite (snapshot_edit (params self) (heap s) k l p Hk (Hwf k l Hk) Hpriv).
  by rewrite initCode_insert_unread.
Qed.

(** X4.  Passes do not interfere: a pass for one target followed by a pass
    for another appends, in that order, the texts each pass appends when it
    runs alone on the first store, and has the result of the second pass
    run alone. *)
Theorem generate_then_generate t1 t2 self s :
  wf (params self) (heap s) ->
  let g t := generate Param_str initVal getPosInRoutine t self in
  exists out1 out2,
    buff (g t1 s).2 = buff s ++ out1 /\
    buff (g t2 s).2 = buff s ++ out2 /\
    buff (g t2 (g t1 s).2).2 = buff s ++ out1 ++ out2 /\
    (g t2 (g t1 s).2).1 = (g t2 s).1.
Proof.
  intros Hwf g. subst g. simpl.
  destruct (generate_run t1 self s Hwf) as [n1 H1].
  destruct (generate_run t2 self s Hwf) as [n2 H2].
  rewrite H1, H2. simpl.
  set (s1 := mkState (heap s ++ n1) _ (libs s)).
  assert (Hwf1 : wf (params self) (heap s1)) by (by apply wf_grow).
  destruct (generate_run t2 self s1 Hwf1) as [n12 H12].
  rewrite H12. simpl. rewrite (snapshot_grow _ _ _ Hwf).
  eexists _, _. split; [done|]. split; [done|]. split; [|done].
  by rewrite <- app_assoc.
Qed.

(** X5.  The loop of lines 149-157 leaves every other entry alone: a
    parameter whose value is none of [True], [False] and the five sentinels
    keeps its object with the value and type [getInitVals] gave it.  The
    integers [1] and [0] are such values, although they equal [True] and
    [False]. *)
Theorem resolveJS_other_unchanged self s k l p :
  wf (params self) (heap s) ->
  params self !! k = Some l -> heap s !! l = Some p ->
  val (initVal PsychoJS k p) ∉ PBool true :: PBool false :: sentinels ->
  exists inits news l',
    resolveJS initVal self s = (Ok inits, grow s news) /\
    inits !! k = Some (SParam l') /\
    heap (grow s news) !! l' = Some (initVal PsychoJS k p).
Proof.
  intros Hwf Hk Hp Hv.
  destruct (resolveJS_entry self s k l p Hwf Hk Hp)
    as (inits & news & Hrun & Hentry).
  assert (Hc : coerceJS (initVal PsychoJS k p) = EParam (initVal PsychoJS k p)).
  { unfold coerceJS. destruct (val (initVal PsychoJS k p)) as [|[|]|z|x|r];
      try done; try (by exfalso; apply Hv; solve_elem).
    unfold sentinels in Hv.
    repeat (apply not_elem_of_cons in Hv as [? Hv]).
    assert (py_in (PStr x) sentinels = false) as ->; [|done].
    unfold py_in, sentinels. simpl.
    repeat (rewrite bool_decide_eq_false_2 by congruence). done. }
  rewrite Hc in Hentry.
  destruct (inits !! k) as [sl|] eqn:Hsl; simpl in Hentry; [|done].
  destruct (entry_of_EParam _ _ _ Hentry) as (l' & -> & Hl').
  exists inits, news, l'. done.
Qed.

Lemma int_not_special (z : Z) :
  PInt z ∉ PBool true :: PBool false :: sentinels.
Proof.
  intros Hz. unfold sentinels in Hz.
  repeat (apply elem_of_cons in Hz as [Hz|Hz]; [discriminate|]).
  by apply elem_of_nil in Hz.
Qed.

(** *** More on the constructor *)

Ltac lookup_ctor :=
  repeat (rewrite lookup_delete_ne by done);
  repeat first [ rewrite lookup_insert_eq | rewrite lookup_insert_ne by done ].

Lemma ImageComponent_init_full self s image mask interpolate texRes
    flipVert flipHoriz :
  (forall k, k ∈ deleted -> is_Some (params self !! k)) ->
  exists c news,
    ImageComponent_init _translate self image mask interpolate texRes
        flipVert flipHoriz s =
      (Ok c, mkState (heap s ++ news) (buff s) (libs s ++ ["visual"])) /\
    (let n := length (heap s) in
     params c =
      delete "borderColorSpace" (delete "borderColor"
        (delete "fillColorSpace" (delete "fillColor"
          (<["flipHoriz" := (n + 5)%nat]> (<["flipVert" := (n + 4)%nat]>
            (<["interpolate" := (n + 3)%nat]>
              (<["texture resolution" := (n + 2)%nat]>
                (<["mask" := (n + 1)%nat]>
                  (<["image" := n]> (params self))))))))))) /\
    val <$> news = [image; mask; texRes; interpolate; flipVert; flipHoriz] /\
    valType <$> news = ["file"; "str"; "num"; "str"; "bool"; "bool"] /\
    order c = order self ++ ["image"; "pos"; "size"; "ori"; "opacity"] /\
    type c = "Image" /\ targets c = ["PsychoPy"; "PsychoJS"].
Proof.
  intros Hdel.
  destruct (Hdel "fillColor") as [l1 H1]; [solve_elem|].
  destruct (Hdel "fillColorSpace") as [l2 H2]; [solve_elem|].
  destruct (Hdel "borderColor") as [l3 H3]; [solve_elem|].
  destruct (Hdel "borderColorSpace") as [l4 H4]; [solve_elem|].
  unfold ImageComponent_init.
  unfold bind at 1. unfold requirePsychopyLibs at 1.
  repeat (unfold bind at 1; unfold alloc at 1; simpl heap; simpl buff;
          simpl libs).
  rewrite !length_app. simpl length.
  unfold bind at 1. erewrite delitem_run;
    [|rewrite !lookup_insert_ne by done; exact H1].
  unfold bind at 1. erewrite delitem_run;
    [|rewrite lookup_delete_ne by done;
      rewrite !lookup_insert_ne by done; exact H2].
  unfold bind at 1. erewrite delitem_run;
    [|rewrite !lookup_delete_ne by done;
      rewrite !lookup_insert_ne by done; exact H3].
  unfold bind at 1. erewrite delitem_run;
    [|rewrite !lookup_delete_ne by done;
      rewrite !lookup_insert_ne by done; exact H4].
  unfold ret. rewrite <- !app_assoc. simpl app.
  eexists _, _. split; [reflexivity|]. split; [|by repeat split].
  simpl. rewrite <- !Nat.add_assoc. simpl. reflexivity.
Qed.

Lemma init_defines_aux self s image mask interpolate texRes
    flipVert flipHoriz :
  wf (params self) (heap s) ->
  (forall k, k ∈ deleted -> is_Some (params self !! k)) ->
  exists c s1,
    ImageComponent_init _translate self image mask interpolate texRes
        flipVert flipHoriz s = (Ok c, s1) /\
    wf (params c) (heap s1) /\
    (forall k v t,
       (k, v, t) ∈ definedAs image mask interpolate texRes flipVert flipHoriz ->
       exists p, snapshot (heap s1) (params c) !! k = Some p /\
                 val p = v /\ valType p = t) /\
    (forall k, k ∉ defined ++ deleted ->
       snapshot (heap s1) (params c) !! k =
       snapshot (heap s) (params self) !! k) /\
    buff s1 = buff s /\ libs s1 = libs s ++ ["visual"].
Proof.
  intros Hwf Hdel.
  destruct (ImageComponent_init_full self s image mask interpolate texRes
              flipVert flipHoriz Hdel)
    as (c & news & Hrun & Hps & Hval & Htype & _).
  simpl in Hps.
  exists c, (mkState (heap s ++ news) (buff s) (libs s ++ ["visual"])).
  split; [exact Hrun|]. simpl heap.
  assert (Hlen : length news = 6%nat).
  { by rewrite <- (length_fmap val), Hval. }
  assert (Hnew : forall i v t,
            [image; mask; texRes; interpolate; flipVert; flipHoriz] !! i
              = Some v ->
            ["file"; "str"; "num"; "str"; "bool"; "bool"] !! i = Some t ->
            exists p, (heap s ++ news) !! (length (heap s) + i)%nat = Some p /\
                      val p = v /\ valType p = t).
  { intros i v t Hv Ht. rewrite <- Hval in Hv. rewrite <- Htype in Ht.
    rewrite list_lookup_fmap in Hv. rewrite list_lookup_fmap in Ht.
    destruct (news !! i) as [p|] eqn:Hp; [|done].
    exists p. rewrite lookup_app_r by lia.
    replace (length (heap s) + i - length (heap s))%nat with i by lia.
    simpl in Hv, Ht. split; [done|]. split; congruence. }
  split; [|split; [|split; [|done]]].
  - unfold wf. rewrite Hps.
    repeat apply map_Forall_delete.
    repeat (apply map_Forall_insert_2; [rewrite length_app; lia|]).
    by apply wf_grow.
  - intros k v t Hk. unfold definedAs in Hk. rewrite snapshot_lookup, Hps.
    repeat (apply elem_of_cons in Hk as [[= -> -> ->] | Hk]);
      [..| by apply elem_of_nil in Hk]; lookup_ctor; simpl.
    + rewrite <- (Nat.add_0_r (length (heap s))). by apply (Hnew 0%nat).
    + by apply (Hnew 1%nat).
    + by apply (Hnew 2%nat).
    + by apply (Hnew 3%nat).
    + by apply (Hnew 4%nat).
    + by apply (Hnew 5%nat).
  - intros k Hk. unfold defined, deleted in Hk. simpl in Hk.
    repeat (apply not_elem_of_cons in Hk as [? Hk]).
    rewrite !snapshot_lookup, Hps. lookup_ctor.
    destruct (params self !! k) as [l|] eqn:El; simpl; [|done].
    apply lookup_app_l. exact (Hwf k l El).
Qed.

(** X6.  What the constructor defines can be read back: each of its six
    parameters holds the value given to the constructor, with the declared
    type, whether or not the base class had a parameter of that name.  Every
    other parameter that is not deleted is the one of the base class, and
    the buffer is untouched. *)
Theorem ImageComponent_init_defines self s image mask interpolate texRes
    flipVert flipHoriz :
  wf (params self) (heap s) ->
  (forall k, k ∈ deleted -> is_Some (params self !! k)) ->
  exists c s1,
    ImageComponent_init _translate self image mask interpolate texRes
        flipVert flipHoriz s = (Ok c, s1) /\
    wf (params c) (heap s1) /\
    (forall k v t,
       (k, v, t) ∈ definedAs image mask interpolate texRes flipVert flipHoriz ->
       exists p, snapshot (heap s1) (params c) !! k = Some p /\
                 val p = v /\ valType p = t) /\
    (forall k, k ∉ defined ++ deleted ->
       snapshot (heap s1) (params c) !! k =
       snapshot (heap s) (params self) !! k) /\
    buff s1 = buff s /\ libs s1 = libs s ++ ["visual"].
Proof.
  intros Hwf Hdel.
  exact (init_defines_aux self s image mask interpolate texRes flipVert
           flipHoriz Hwf Hdel).
Qed.

(** X7.  Each parameter the constructor defines has an object of its own:
    no other name of the mapping refers to it. *)
Theorem ImageComponent_init_fresh self s image mask interpolate texRes
    flipVert flipHoriz :
  wf (params self) (heap s) ->
  (forall k, k ∈ deleted -> is_Some (params self !! k)) ->
  exists c s1,
    ImageComponent_init _translate self image mask interpolate texRes
        flipVert flipHoriz s = (Ok c, s1) /\
    forall k, k ∈ defined ->
      exists l, params c !! k = Some l /\
                (length (heap s) <= l)%nat /\
                forall k', params c !! k' = Some l -> k' = k.
Proof.
  intros Hwf Hdel.
  destruct (ImageComponent_init_full self s image mask interpolate texRes
              flipVert flipHoriz Hdel) as (c & news & Hrun & Hps & _).
  simpl in Hps. eexists c, _. split; [exact Hrun|].
  assert (Hbase : forall k' l, params self !! k' = Some l ->
                               (l < length (heap s))%nat).
  { intros k' l Hl. exact (Hwf k' l Hl). }
  intros k Hk. unfold defined in Hk. rewrite Hps.
  elem_cases Hk; eexists; (split; [lookup_ctor; reflexivity|]);
    (split; [lia|]); intros k' Hk';
    repeat (rewrite lookup_delete in Hk'; case_decide; [done|]);
    repeat (rewrite lookup_insert in Hk'; case_decide;
            [first [done | injection Hk'; lia]|]);
    apply Hbase in Hk'; lia.
Qed.

(** X8.  [del] on a name the base class did not define raises [KeyError]
    for the first such name, in the order of lines 105-108.  By then the
    library has been registered and the six objects exist. *)
Theorem ImageComponent_init_missing self s image mask interpolate texRes
    flipVert flipHoriz pre k post :
  deleted = pre ++ k :: post ->
  (forall k', k' ∈ pre -> is_Some (params self !! k')) ->
  params self !! k = None ->
  let out := ImageComponent_init _translate self image mask interpolate
               texRes flipVert flipHoriz s in
  out.1 = Raise (KeyError k) /\
  libs out.2 = libs s ++ ["visual"] /\
  length (heap out.2) = (length (heap s) + 6)%nat /\
  buff out.2 = buff s.
Proof.
  intros Hsplit Hpre Hk out.
  assert (Hrun : exists news,
            out = (Raise (KeyError k),
                   mkState (heap s ++ news) (buff s) (libs s ++ ["visual"])) /\
            length news = 6%nat).
  { subst out. unfold ImageComponent_init.
    unfold bind at 1. unfold requirePsychopyLibs at 1.
    repeat (unfold bind at 1; unfold alloc at 1; simpl heap; simpl buff;
            simpl libs).
    rewrite !length_app. simpl length. rewrite <- !app_assoc. simpl app.
    unfold deleted in Hsplit.
    destruct pre as [|a1 [|a2 [|a3 [|a4 pre]]]]; simplify_eq/=.
    - unfold bind at 1. unfold delitem at 1.
      rewrite !lookup_insert_ne by done. rewrite Hk.
      eexists. split; reflexivity.
    - destruct (Hpre "fillColor") as [l1 H1]; [solve_elem|].
      unfold bind at 1. erewrite delitem_run;
        [|rewrite !lookup_insert_ne by done; exact H1].
      unfold bind at 1. unfold delitem at 1.
      rewrite lookup_delete_ne by done.
      rewrite !lookup_insert_ne by done. rewrite Hk.
      eexists. split; reflexivity.
    - destruct (Hpre "fillColor") as [l1 H1]; [solve_elem|].
      destruct (Hpre "fillColorSpace") as [l2 H2]; [solve_elem|].
      unfold bind at 1. erewrite delitem_run;
        [|rewrite !lookup_insert_ne by done; exact H1].
      unfold bind at 1. erewrite delitem_run;
        [|rewrite lookup_delete_ne by done;
          rewrite !lookup_insert_ne by done; exact H2].
      unfold bind at 1. unfold delitem at 1.
      rewrite !lookup_delete_ne by done.
      rewrite !lookup_insert_ne by done. rewrite Hk.
      eexists. split; reflexivity.
    - destruct (Hpre "fillColor") as [l1 H1]; [solve_elem|].
      destruct (Hpre "fillColorSpace") as [l2 H2]; [solve_elem|].
      destruct (Hpre "borderColor") as [l3 H3]; [solve_elem|].
      unfold bind at 1. erewrite delitem_run;
        [|rewrite !lookup_insert_ne by done; exact H1].
      unfold bind at 1. erewrite delitem_run;
        [|rewrite lookup_delete_ne by done;
          rewrite !lookup_insert_ne by done; exact H2].
      unfold bind at 1. erewrite delitem_run;
        [|rewrite !lookup_delete_ne by done;
          rewrite !lookup_insert_ne by done; exact H3].
      unfold bind at 1. unfold delitem at 1.
      rewrite !lookup_delete_ne by done.
      rewrite !lookup_insert_ne by done. rewrite Hk.
      eexists. split; reflexivity.
    - by destruct pre. }
  destruct Hrun as (news & -> & Hlen). simpl.
  rewrite length_app, Hlen. done.
Qed.

(** X9.  The constructor deletes four names from the mapping and leaves
    [order] as the base class made it, with five names appended.  When every
    name of the base order and the four appended inherited names are keys of
    the base mapping, a name of the new order is a key of the new mapping
    exactly when it is not one of the four deleted names. *)
Theorem ImageComponent_init_order self s image mask interpolate texRes
    flipVert flipHoriz :
  (forall k, k ∈ deleted -> is_Some (params self !! k)) ->
  (forall n, n ∈ order self ++ ["pos"; "size"; "ori"; "opacity"] ->
             is_Some (params self !! n)) ->
  exists c s1,
    ImageComponent_init _translate self image mask interpolate texRes
        flipVert flipHoriz s = (Ok c, s1) /\
    order c = order self ++ ["image"; "pos"; "size"; "ori"; "opacity"] /\
    forall n, n ∈ order c -> (is_Some (params c !! n) <-> n ∉ deleted).
Proof.
  intros Hdel Hord.
  destruct (ImageComponent_init_full self s image mask interpolate texRes
              flipVert flipHoriz Hdel)
    as (c & news & Hrun & Hps & _ & _ & Horder & _).
  simpl in Hps. eexists c, _. split; [exact Hrun|]. split; [exact Horder|].
  intros n Hn. rewrite Horder in Hn. split.
  - intros [l Hl] Hin. rewrite Hps in Hl. unfold deleted in Hin.
    elem_cases Hin;
      repeat first [ by rewrite lookup_delete_eq in Hl
                   | rewrite lookup_delete_ne in Hl by done ].
  - intros Hnot. unfold deleted in Hnot.
    repeat (apply not_elem_of_cons in Hnot as [? Hnot]).
    rewrite Hps. repeat (rewrite lookup_delete_ne by done).
    repeat (rewrite lookup_insert; case_decide; [by eauto|]).
    apply Hord. apply elem_of_app in Hn as [Hn | Hn].
    + apply elem_of_app. by left.
    + apply elem_of_cons in Hn as [-> | Hn]; [done|].
      apply elem_of_app. by right.
Qed.

(** X10.  Constructor, then emitter.  On a component built from a base that
    has the inherited and the deleted names, a pass for either target
    succeeds, and its statement ends with the interpolate clause decided by
    the [interpolate] argument of the constructor, followed by the depth
    clause; the units clause is that of the units parameter of the base. *)
Theorem ImageComponent_init_then_generate target self s image mask
    interpolate texRes flipVert flipHoriz pu :
  wf (params self) (heap s) ->
  (forall k, k ∈ inherited ++ deleted -> is_Some (params self !! k)) ->
  snapshot (heap s) (params self) !! "units" = Some pu ->
  exists c s1 s2 pre post,
    ImageComponent_init _translate self image mask interpolate texRes
        flipVert flipHoriz s = (Ok c, s1) /\
    generate Param_str initVal getPosInRoutine target c s1 = (Ok tt, s2) /\
    buff s2 = buff s ++
      [pre +:+ unitsClause Param_str target pu +:+ post +:+
       match target with
       | PsychoPy =>
           if py_eq interpolate (PStr "linear") then ", interpolate=True"
           else ", interpolate=False"
       | PsychoJS =>
           if py_eq interpolate (PStr "linear") then ", interpolate : true"
           else ", interpolate : false"
       end +:+ depthClause getPosInRoutine target c].
Proof.
  intros Hwf Hbase Hu.
  assert (Hdel : forall k, k ∈ deleted -> is_Some (params self !! k)).
  { intros k Hk. apply Hbase, elem_of_app. by right. }
  destruct (init_defines_aux self s image mask interpolate texRes
              flipVert flipHoriz Hwf Hdel)
    as (c & s1 & Hrun & Hwf1 & Hdef & Hframe & Hbuff & _).
  assert (Hreq : forall n, n ∈ required target -> is_Some (params c !! n)).
  { intros n Hn. apply (snapshot_wf_dom _ _ n Hwf1).
    assert (Hin : n ∈ inherited -> is_Some (snapshot (heap s1) (params c) !! n)).
    { intros Hi. rewrite Hframe.
      - apply (snapshot_wf_dom _ _ n Hwf). apply Hbase, elem_of_app. by left.
      - unfold inherited in Hi. unfold defined, deleted. simpl.
        elem_cases Hi; solve_not_elem. }
    assert (Hnew : forall v t,
              (n, v, t) ∈ definedAs image mask interpolate texRes flipVert
                            flipHoriz ->
              is_Some (snapshot (heap s1) (params c) !! n)).
    { intros v t Hvt. destruct (Hdef n v t Hvt) as (p & -> & _). eauto. }
    unfold required in Hn.
    destruct target; simpl in Hn; elem_cases Hn;
      first [ by (apply Hin; unfold inherited; solve_elem)
            | by (eapply Hnew; unfold definedAs; solve_elem) ]. }
  pose proof (generate_Ok_of_required target c s1 Hwf1 Hreq) as Hok.
  destruct (generate Param_str initVal getPosInRoutine target c s1)
    as [r s2] eqn:Hg. simpl in Hok. subst r.
  destruct (generate_Ok_inv target c s1 s2 Hwf1 Hg)
    as (pre & post & pu' & pi & Hu' & Hi & _ & _ & Hb).
  rewrite Hframe in Hu' by (unfold defined, deleted; simpl; solve_not_elem).
  rewrite Hu in Hu'. injection Hu' as <-.
  destruct (Hdef "interpolate" interpolate "str") as (p & Hp & Hv & _).
  { unfold definedAs. solve_elem. }
  rewrite Hi in Hp. injection Hp as ->.
  exists c, s1, s2, pre, post. split; [done|]. split; [done|].
  rewrite Hb, Hbuff. unfold interpolateClause. rewrite Hv.
  by destruct target.
Qed.

End Theory.

(** ** The claims on the scenario of the specification *)

Lemma private_by_Forall (ps : gmap string loc) (l : loc) (k0 : string) :
  map_Forall (fun k l' => l' = l -> k = k0) ps ->
  forall k, ps !! k = Some l -> k = k0.
Proof. intros H k Hk. exact (H k l Hk eq_refl). Qed.

Ltac by_decide :=
  match goal with
  | |- ?P => apply (@bool_decide_unpack P _); vm_compute; exact I
  end.

Lemma image_wf : wf (params image_component) (heap image_state).
Proof. unfold wf. by_decide. Qed.

Example scenario_native :
  buff (writeInitCode Param_str_spec id_init first_pos image_component
          image_state).2 =
  ["image = visual.ImageStim(" +:+ nl +:+
   "    win=win," +:+ nl +:+
   "    name='image', " +:+ nl +:+
   "    image='face.jpg', mask='None'," +:+ nl +:+
   "    ori=0, pos=(0, 0), size=(0.5, 0.5)," +:+ nl +:+
   "    color='$[1,1,1]', colorSpace='rgb', opacity=1," +:+ nl +:+
   "    flipHoriz=False, flipVert=False," +:+ nl +:+
   "    texRes='128', interpolate=True, depth=-1.0)" +:+ nl].
Proof. by vm_compute. Qed.

Example scenario_web :
  buff (writeInitCodeJS Param_str_spec id_init first_pos image_component
          image_state).2 =
  ["image = new visual.ImageStim({" +:+ nl +:+
   "  win : psychoJS.window," +:+ nl +:+
   "  name : 'image', units : undefined, " +:+ nl +:+
   "  image : 'face.jpg', mask : undefined," +:+ nl +:+
   "  ori : 0, pos : (0, 0), size : (0.5, 0.5)," +:+ nl +:+
   "  color : new util.Color('$[1,1,1]'), opacity : 1," +:+ nl +:+
   "  flipHoriz : false, flipVert : false," +:+ nl +:+
   "  texRes : '128', interpolate : true, depth : -1.0 " +:+ nl +:+
   "});" +:+ nl].
Proof. by vm_compute. Qed.

Lemma Param_str_spec_code (q : Param) :
  valType q = "code" -> val q = PStr "undefined" ->
  Param_str_spec q = "undefined".
Proof. intros Ht Hv. unfold Param_str_spec. by rewrite Hv, Ht. Qed.

Lemma C1_witness :
  exists inits news l' q,
    resolveJS id_init image_component image_state =
      (Ok inits, grow image_state news) /\
    inits !! "mask" = Some (SParam l') /\
    heap (grow image_state news) !! l' = Some q /\
    val q = PStr "undefined" /\ valType q = "code" /\
    str_slot Param_str_spec (SParam l') (grow image_state news) =
      (Ok "undefined", grow image_state news).
Proof.
  apply (C1_sentinel_to_undefined Param_str_spec id_init image_component
           image_state "mask" 13%nat (param_at image_state 13)).
  - unfold wf. by_decide.
  - by vm_compute.
  - by vm_compute.
  - by vm_compute.
  - exact Param_str_spec_code.
Defined.

Lemma C2_witness :
  filter (fun n => n ≠ "colorSpace") (fields jsTemplate) =
    filter (fun n => n ≠ "colorSpace") (fields nativeTemplate) /\
  exists pre post, forall pu, exists news,
    writeInitCodeJS Param_str_spec id_init first_pos image_component
        (edit 1 pu image_state) =
      (Ok tt,
       mkState (heap (edit 1 pu image_state) ++ news)
         (buff image_state ++
          [pre +:+
           (if py_eq (val pu) (PStr "from exp settings")
            then "units : undefined, "
            else "units : " +:+ Param_str_spec pu +:+ ", ") +:+ post])
         (libs image_state)).
Proof.
  apply (C2_web_units_clause Param_str_spec id_init first_pos image_component
           image_state
           (writeInitCodeJS Param_str_spec id_init first_pos image_component
              image_state).2).
  - unfold wf. by_decide.
  - by vm_compute.
  - apply private_by_Forall. by_decide.
  - by vm_compute.
Defined.

(** C2 as stated fails: on the scenario, whose units parameter holds
    ["from exp settings"], the Native statement has no units text and the
    Web statement has the clause [units : undefined, ]. *)
Lemma C2_counterexample :
  exists native web s1 s2 lu,
    params image_component !! "units" = Some lu /\
    val (param_at image_state lu) = PStr "from exp settings" /\
    writeInitCode Param_str_spec id_init first_pos image_component
      image_state = (Ok tt, s1) /\
    buff s1 = [native] /\ contains "units" native = false /\
    writeInitCodeJS Param_str_spec id_init first_pos image_component
      image_state = (Ok tt, s2) /\
    buff s2 = [web] /\ contains "units : undefined, " web = true.
Proof.
  do 5 eexists.
  split; [by vm_compute|]. split; [by vm_compute|].
  split; [by vm_compute|]. split; [by vm_compute|].
  split; [by vm_compute|]. split; [by vm_compute|].
  split; by vm_compute.
Qed.

Lemma C3_witness :
  exists r out news1 news2,
    generate Param_str_spec id_init first_pos PsychoJS image_component
        image_state =
      (r, mkState (heap image_state ++ news1) (buff image_state ++ out)
            (libs image_state)) /\
    generate Param_str_spec id_init first_pos PsychoJS image_component
        (mkState (heap image_state ++ news1) (buff image_state ++ out)
           (libs image_state)) =
      (r, mkState (heap image_state ++ news1 ++ news2)
            (buff image_state ++ out ++ out) (libs image_state)) /\
    (forall k l p,
       params image_component !! k = Some l ->
       heap image_state !! l = Some p ->
       (heap image_state ++ news1) !! l = Some p /\
       (heap image_state ++ news1 ++ news2) !! l = Some p) /\
    ((exists e, r = Raise e /\ out = []) \/
     (exists code, r = Ok tt /\ out = [code])).
Proof.
  apply (C3_generate_twice Param_str_spec id_init first_pos PsychoJS
           image_component image_state).
  unfold wf. by_decide.
Defined.

Lemma C4_witness :
  (exists pre sn,
     writeInitCode Param_str_spec id_init first_pos image_component
       image_state = (Ok tt, sn) /\
     buff sn = buff image_state ++
       [pre +:+ ", depth=" +:+
        fmt1f (- Z.pos (first_pos image_component)) +:+ ")" +:+ nl]) /\
  (exists pre sj,
     writeInitCodeJS Param_str_spec id_init first_pos image_component
       image_state = (Ok tt, sj) /\
     buff sj = buff image_state ++
       [pre +:+ ", depth : " +:+
        fmt1f (- Z.pos (first_pos image_component)) +:+ " " +:+ nl +:+
        "});" +:+ nl]) /\
  (forall other,
     Z.pos (first_pos other) < 2 ^ 53 ->
     first_pos other ≠ first_pos image_component ->
     fmt1f (- Z.pos (first_pos other)) ≠
     fmt1f (- Z.pos (first_pos image_component))) /\
  fmt1f (- 1) = "-1.0" /\ fmt1f (- 2) = "-2.0".
Proof.
  apply (C4_depth_is_minus_position Param_str_spec id_init first_pos
           image_component image_state).
  - unfold wf. by_decide.
  - by vm_compute.
  - intros n Hn. unfold required in Hn. simpl in Hn.
    elem_cases Hn; eexists; vm_compute; reflexivity.
Defined.


Lemma C6_witness :
  exists pre post, forall pu, exists news,
    writeInitCode Param_str_spec id_init first_pos image_component
        (edit 1 pu image_state) =
      (Ok tt,
       mkState (heap (edit 1 pu image_state) ++ news)
         (buff image_state ++
          [pre +:+
           (if py_eq (val pu) (PStr "from exp settings") then ""
            else "units=" +:+ Param_str_spec pu +:+ ", ") +:+ post])
         (libs image_state)).
Proof.
  apply (C6_native_units_clause Param_str_spec id_init first_pos
           image_component image_state
           (writeInitCode Param_str_spec id_init first_pos image_component
              image_state).2).
  - unfold wf. by_decide.
  - by vm_compute.
  - apply private_by_Forall. by_decide.
  - by vm_compute.
Defined.

Lemma C7_witness :
  exists c s1,
    ImageComponent_init id base_component (PStr "face.jpg") (PStr "None")
      (PStr "linear") (PStr "128") (PBool false) (PBool false) base_state =
      (Ok c, s1) /\
    (forall k, k ∈ deleted -> params c !! k = None) /\
    (forall target, exists code s2,
       generate Param_str_spec id_init first_pos target c s1 = (Ok tt, s2) /\
       buff s2 = buff s1 ++ [code]) /\
    (forall target k, k ∈ deleted ->
       (k ∉ "units" :: "interpolate" :: fields (template target)) /\
       forallb (fun lit => negb (contains k lit))
               (literals (template target)) = true).
Proof.
  apply (C7_deleted_params_unreferenced Param_str_spec id_init first_pos id
           base_component base_state).
  - unfold wf. by_decide.
  - intros k Hk. unfold inherited, deleted in Hk. simpl in Hk.
    elem_cases Hk; eexists; vm_compute; reflexivity.
Defined.

Lemma C8_witness :
  (exists pre sj,
     writeInitCodeJS Param_str_spec id_init first_pos image_component
       image_state = (Ok tt, sj) /\
     buff sj = buff image_state ++ [pre +:+ "});" +:+ nl]) /\
  (exists code pre sn,
     writeInitCode Param_str_spec id_init first_pos image_component
       image_state = (Ok tt, sn) /\
     buff sn = buff image_state ++ [code] /\
     code = pre +:+ ".0)" +:+ nl /\
     (forall y, code ≠ y +:+ ";" +:+ nl) /\
     (forall y, code ≠ y +:+ "});" +:+ nl) /\
     (forall c, c ∈ [";"; "}"]%char ->
        (forall k l p,
           params image_component !! k = Some l ->
           heap image_state !! l = Some p ->
           occurs c (Param_str_spec p) = false /\
           occurs c (Param_str_spec (id_init PsychoPy k p)) = false) ->
        occurs c code = false)) /\
  forallb (fun lit => negb (contains ";" lit) && negb (contains "}" lit))
          nativeLiterals = true.
Proof.
  apply (C8_closing_tokens Param_str_spec id_init first_pos image_component
           image_state).
  - unfold wf. by_decide.
  - intros n Hn. unfold required in Hn. simpl in Hn.
    elem_cases Hn; eexists; vm_compute; reflexivity.
Defined.

Lemma C8_counterexample :
  (exists native sn,
     writeInitCode Param_str_spec id_init first_pos image_component
       image_state = (Ok tt, sn) /\
     buff sn = [native] /\ contains ")" native = true) /\
  (exists native sn,
     writeInitCode Param_str_spec id_init first_pos image_component
       image_state_braces = (Ok tt, sn) /\
     buff sn = [native] /\
     contains "}" native = true /\ contains ";" native = true /\
     contains "});" native = true).
Proof.
  split.
  - do 2 eexists. split; [by vm_compute|]. split; by vm_compute.
  - do 2 eexists. split; [by vm_compute|]. split; [by vm_compute|].
    split; [by vm_compute|]. split; by vm_compute.
Qed.

Lemma C9_witness :
  exists pre post,
    (forall pu, py_in (val pu) sentinels = true ->
       exists news,
         writeInitCodeJS Param_str_spec id_init first_pos image_component
             (edit 1 pu image_state) =
           (Ok tt,
            mkState (heap (edit 1 pu image_state) ++ news)
              (buff image_state ++
               [pre +:+ ("units : " +:+ Param_str_spec pu +:+ ", ")
                    +:+ post])
              (libs image_state))) /\
    (forall pu, val pu = PStr "from exp settings" ->
       exists news,
         writeInitCodeJS Param_str_spec id_init first_pos image_component
             (edit 1 pu image_state) =
           (Ok tt,
            mkState (heap (edit 1 pu image_state) ++ news)
              (buff image_state ++ [pre +:+ "units : undefined, " +:+ post])
              (libs image_state))).
Proof.
  apply (C9_web_units_raw Param_str_spec id_init first_pos image_component
           image_state
           (writeInitCodeJS Param_str_spec id_init first_pos image_component
              image_state).2).
  - unfold wf. by_decide.
  - by vm_compute.
  - apply private_by_Forall. by_decide.
  - by vm_compute.
Defined.

Lemma C10_witness :
  exists inits news,
    resolveJS id_init image_component image_state_str =
      (Ok inits, grow image_state_str news) /\
    (forall x, inits !! "flipVert" = Some (SStr x) <->
       (val (id_init PsychoJS "flipVert" (param_at image_state_str 16)) =
          PBool true /\ x = "true") \/
       (val (id_init PsychoJS "flipVert" (param_at image_state_str 16)) =
          PBool false /\ x = "false")) /\
    (val (id_init PsychoJS "flipVert" (param_at image_state_str 16)) =
       PStr "True" \/
     val (id_init PsychoJS "flipVert" (param_at image_state_str 16)) =
       PStr "False" ->
     exists l',
       inits !! "flipVert" = Some (SParam l') /\
       heap (grow image_state_str news) !! l' =
         Some (id_init PsychoJS "flipVert" (param_at image_state_str 16)) /\
       str_slot Param_str_spec (SParam l') (grow image_state_str news) =
         (Ok (Param_str_spec
                (id_init PsychoJS "flipVert" (param_at image_state_str 16))),
          grow image_state_str news)).
Proof.
  apply (C10_bool_by_identity Param_str_spec id_init image_component
           image_state_str "flipVert" 16%nat).
  - unfold wf. by_decide.
  - by vm_compute.
  - by vm_compute.
Defined.

(** On the scenario with the units parameter set to the empty string, the
    Web statement has the clause [units : '', ]. *)
Example scenario_web_units_empty :
  exists code,
    buff (writeInitCodeJS Param_str_spec id_init first_pos image_component
            image_state_units).2 = [code] /\
    contains "units : '', " code = true /\
    contains "units : undefined" code = false.
Proof. eexists. split; [by vm_compute|]. split; by vm_compute. Qed.

(** ** The microphone *)

Module MicrophoneFacts.
Import Microphone.

Section Facts.

Context (float : Type)
        (float_of_Z : Z -> option float)
        (float_of_str : string -> option float)
        (int_of_float : float -> res Z)
        (int_of_str : string -> option Z)
        (NOT_STARTED STARTED : Z)
        (Audio AudioClip : Type)
        (mkAudioClip : Audio -> Z -> AudioClip)
        (ptb_raises : list (call float) -> call float -> option string)
        (ptb_audio : list (call float) -> Audio).

Local Abbreviation init :=
  (__init__ float float_of_Z float_of_str int_of_float int_of_str
            NOT_STARTED ptb_raises).
Local Abbreviation start_ := (start float STARTED ptb_raises).
Local Abbreviation stop_ := (stop float NOT_STARTED ptb_raises).
Local Abbreviation close_ := (close float ptb_raises).
Local Abbreviation getAudioClip_ :=
  (getAudioClip float NOT_STARTED Audio AudioClip mkAudioClip ptb_raises
                ptb_audio).
Local Abbreviation setter := (stopTime_setter float float_of_Z float_of_str).
Local Abbreviation to_float := (py_float float float_of_Z float_of_str).
Local Abbreviation to_int := (py_int float int_of_float int_of_str).

Lemma on_recording_run (e : Env float) h method :
  _recording float (self float e) = Some h ->
  on_recording float ptb_raises method e =
    (match ptb_raises (calls float e) (method h) with
     | Some msg => Raise (PTBError msg)
     | None => Ok tt
     end,
     mkEnv float (self float e) (calls float e ++ [method h])).
Proof.
  intros Hrec. unfold on_recording, on_ptb, ptb. rewrite Hrec.
  by destruct (ptb_raises (calls float e) (method h)).
Qed.

Lemma start_run (e : Env float) h :
  _recording float (self float e) = Some h ->
  ptb_raises (calls float e)
    (Stream_start float h 0 (_stopTime float (self float e))) = None ->
  start_ e =
    (Ok tt,
     mkEnv float
       (mkMicrophone float (_device float (self float e))
          (_sampleRateHz float (self float e))
          (_recBufferSecs float (self float e))
          (_mode float (self float e)) (_channels float (self float e))
          (_stopTime float (self float e)) (Some h) STARTED)
       (calls float e ++
        [Stream_start float h 0 (_stopTime float (self float e))])).
Proof.
  intros Hrec Hquiet. unfold start.
  assert (Hpass : (if _statusFlag float (self float e) =? STARTED
                   then @ret_ (Env float) unit tt else ret_ tt) = ret_ tt)
    by (by destruct (_ =? _)).
  rewrite Hpass. unfold bind_ at 1. unfold ret_ at 1.
  unfold bind_ at 1. unfold assert_.
  rewrite bool_decide_eq_true_2 by (rewrite Hrec; eauto).
  unfold ret_ at 1. unfold bind_ at 1.
  rewrite (on_recording_run e h _ Hrec), Hquiet.
  unfold set_statusFlag. simpl. by rewrite Hrec.
Qed.

Lemma getAudioClip_closed (e : Env float) :
  _statusFlag float (self float e) = NOT_STARTED ->
  getAudioClip_ e = (Raise (AudioStreamError closed_msg), e).
Proof.
  intros Hflag. unfold getAudioClip. rewrite Hflag, Z.eqb_refl. done.
Qed.

Lemma getAudioClip_open (e : Env float) h :
  _statusFlag float (self float e) ≠ NOT_STARTED ->
  _recording float (self float e) = Some h ->
  getAudioClip_ e =
    (match ptb_raises (calls float e) (Stream_get_audio_data float h None) with
     | Some msg => Raise (PTBError msg)
     | None => Ok (mkAudioClip (ptb_audio (calls float e))
                               (_sampleRateHz float (self float e)))
     end,
     mkEnv float (self float e)
       (calls float e ++ [Stream_get_audio_data float h None])).
Proof.
  intros Hflag Hrec. unfold getAudioClip.
  apply Z.eqb_neq in Hflag. rewrite Hflag.
  unfold bind_. rewrite (on_recording_run e h _ Hrec).
  by destruct (ptb_raises _ _).
Qed.

(** X11.  The constructor touches PTB only after its checks, and raises
    the exception of the first check that fails: [AssertionError] when
    [recBufferSecs] is not a number, else the exception of
    [float(recBufferSecs)], else that of [int(mode)], else that of
    [int(channels)]; in all these cases no call has been made on PTB. *)
Theorem init_checks_before_ptb device sampleRateHz channels mode
    recBufferSecs w ex :
  (is_number float recBufferSecs = false /\ ex = AssertionError) \/
  (is_number float recBufferSecs = true /\
   to_float recBufferSecs = Raise ex) \/
  (is_number float recBufferSecs = true /\
   (exists secs, to_float recBufferSecs = Ok secs) /\
   to_int mode = Raise ex) \/
  (is_number float recBufferSecs = true /\
   (exists secs, to_float recBufferSecs = Ok secs) /\
   (exists m, to_int mode = Ok m) /\
   to_int channels = Raise ex) ->
  init device sampleRateHz channels mode recBufferSecs w = (Raise ex, w).
Proof.
  intros H. unfold __init__, bind_, assert_, lift_, ret_, raise_.
  destruct H as [[Hn ->] | [[Hn Hf] | [(Hn & [secs Hf] & Hm) |
                 (Hn & [secs Hf] & [m Hm] & Hc)]]]; rewrite Hn; simpl.
  - done.
  - by rewrite Hf.
  - rewrite Hf. simpl. by rewrite Hm.
  - rewrite Hf. simpl. rewrite Hm. simpl. by rewrite Hc.
Qed.

(** X12.  A constructor that returns has made two calls on PTB, the
    creation of the stream with the converted mode, the sample rate and the
    converted channels, and the allocation of the buffer for
    [float(recBufferSecs)] seconds.  The microphone it returns is not
    started and has no stop time, and [getAudioClip] on it raises
    [AudioStreamError] without a call on PTB. *)
Theorem init_then_getAudioClip device sampleRateHz channels mode
    recBufferSecs w mic w' :
  init device sampleRateHz channels mode recBufferSecs w = (Ok mic, w') ->
  exists secs m ch,
    to_float recBufferSecs = Ok secs /\ to_int mode = Ok m /\
    to_int channels = Ok ch /\
    w' = w ++ [Stream_new float m sampleRateHz ch;
               Stream_get_audio_data float (length w) (Some secs)] /\
    mic = mkMicrophone float device sampleRateHz secs m ch None
            (Some (length w)) NOT_STARTED /\
    getAudioClip_ (mkEnv float mic w') =
      (Raise (AudioStreamError closed_msg), mkEnv float mic w').
Proof.
  unfold __init__, bind_, assert_, lift_, ret_, raise_, _createStream, ptb.
  destruct (is_number float recBufferSecs); simpl; [|done].
  destruct (to_float recBufferSecs) as [secs|]; simpl; [|done].
  destruct (to_int mode) as [m|]; simpl; [|done].
  destruct (to_int channels) as [ch|]; simpl; [|done].
  destruct (ptb_raises w _); simpl; [done|].
  destruct (ptb_raises (w ++ _) _); simpl; [done|].
  intros [= <- <-]. exists secs, m, ch.
  rewrite <- app_assoc. repeat split; try done.
  by apply getAudioClip_closed.
Qed.

(** X13.  [start] then [getAudioClip], on a microphone with a stream and
    with PTB raising nothing: the clip holds the samples PTB hands out and
    the sample rate of the microphone, the status is [STARTED], and PTB has
    been called twice, to start the stream with [repetitions=0] and the
    current stop time and to read the data. *)
Theorem start_then_getAudioClip (e : Env float) h :
  STARTED ≠ NOT_STARTED ->
  _recording float (self float e) = Some h ->
  let c1 := Stream_start float h 0 (_stopTime float (self float e)) in
  let c2 := Stream_get_audio_data float h None in
  ptb_raises (calls float e) c1 = None ->
  ptb_raises (calls float e ++ [c1]) c2 = None ->
  exists e',
    bind_ start_ (fun _ => getAudioClip_) e =
      (Ok (mkAudioClip (ptb_audio (calls float e ++ [c1]))
                       (_sampleRateHz float (self float e))), e') /\
    calls float e' = calls float e ++ [c1; c2] /\
    _statusFlag float (self float e') = STARTED.
Proof.
  intros Hne Hrec c1 c2 Hq1 Hq2. unfold bind_ at 1.
  rewrite (start_run e h Hrec Hq1). fold c1.
  rewrite (getAudioClip_open _ h) by done. simpl. fold c2. rewrite Hq2.
  eexists. split; [reflexivity|]. simpl. by rewrite <- app_assoc.
Qed.

(** X14.  After [stop] no clip can be had: when the stream stops without an
    exception the status is [NOT_STARTED] and [getAudioClip] raises
    [AudioStreamError] without a further call on PTB.  When the stream
    raises instead, [stop] raises too and the microphone is as it was. *)
Theorem stop_then_getAudioClip (e : Env float) h :
  _recording float (self float e) = Some h ->
  match ptb_raises (calls float e) (Stream_stop float h) with
  | None =>
      exists e',
        bind_ stop_ (fun _ => getAudioClip_) e =
          (Raise (AudioStreamError closed_msg), e') /\
        calls float e' = calls float e ++ [Stream_stop float h] /\
        _statusFlag float (self float e') = NOT_STARTED
  | Some msg =>
      stop_ e =
        (Raise (PTBError msg),
         mkEnv float (self float e) (calls float e ++ [Stream_stop float h]))
  end.
Proof.
  intros Hrec.
  destruct (ptb_raises (calls float e) (Stream_stop float h)) as [msg|] eqn:Hq.
  - unfold stop, bind_. by rewrite (on_recording_run e h _ Hrec), Hq.
  - unfold stop. unfold bind_ at 1. unfold bind_ at 1.
    rewrite (on_recording_run e h _ Hrec), Hq. unfold set_statusFlag.
    rewrite getAudioClip_closed by done. eexists. split; [reflexivity|].
    done.
Qed.

(** X15.  The setter, then [start]: a number given to the setter of
    [stopTime], a boolean included, is what [start] passes to the stream as
    [stop_time], converted to a float; the setter itself makes no call on
    PTB. *)
Theorem stopTime_then_start (e : Env float) v x h :
  is_number float v = true ->
  to_float v = Ok x ->
  _recording float (self float e) = Some h ->
  ptb_raises (calls float e) (Stream_start float h 0 (Some x)) = None ->
  exists e1 e2,
    setter v e = (Ok tt, e1) /\
    calls float e1 = calls float e /\ stopTime float e1 = Some x /\
    start_ e1 = (Ok tt, e2) /\
    calls float e2 = calls float e ++ [Stream_start float h 0 (Some x)] /\
    stopTime float e2 = Some x.
Proof.
  intros Hn Hf Hrec Hq.
  unfold stopTime_setter, bind_, assert_, lift_, ret_, set_stopTime.
  rewrite Hn, Hf. simpl. eexists _, _. split; [reflexivity|].
  split; [done|]. split; [done|].
  rewrite (start_run _ h) by done. simpl. done.
Qed.

(** X16.  The setter of [stopTime] rejects what is not a number with
    [AssertionError], and a number that [float] cannot take with the
    exception that [float] raises; in both cases the microphone and the log
    are as they were. *)
Theorem stopTime_setter_rejects (e : Env float) v ex :
  (is_number float v = false /\ ex = AssertionError) \/
  (is_number float v = true /\ to_float v = Raise ex) ->
  setter v e = (Raise ex, e).
Proof.
  intros H.
  unfold stopTime_setter, bind_, assert_, lift_, ret_, raise_.
  destruct H as [[Hn ->] | [Hn Hf]]; rewrite Hn; simpl; [done|].
  by rewrite Hf.
Qed.

(** X17.  [start] does not look at the status: on a microphone that is
    already started it starts the stream once more. *)
Theorem start_twice (e : Env float) h :
  _recording float (self float e) = Some h ->
  let c := Stream_start float h 0 (_stopTime float (self float e)) in
  ptb_raises (calls float e) c = None ->
  ptb_raises (calls float e ++ [c]) c = None ->
  exists e',
    bind_ start_ (fun _ => start_) e = (Ok tt, e') /\
    calls float e' = calls float e ++ [c; c] /\
    _statusFlag float (self float e') = STARTED.
Proof.
  intros Hrec c Hq1 Hq2. unfold bind_.
  rewrite (start_run e h Hrec Hq1). fold c.
  rewrite (start_run _ h) by done. simpl. fold c.
  eexists. split; [reflexivity|]. simpl. by rewrite <- app_assoc.
Qed.

(** X18.  [close] closes the stream and leaves the status alone: on a
    started microphone [getAudioClip] after [close] does not raise
    [AudioStreamError] but asks the closed stream for its data. *)
Theorem close_then_getAudioClip (e : Env float) h :
  _statusFlag float (self float e) ≠ NOT_STARTED ->
  _recording float (self float e) = Some h ->
  let c1 := Stream_close float h in
  let c2 := Stream_get_audio_data float h None in
  ptb_raises (calls float e) c1 = None ->
  bind_ close_ (fun _ => getAudioClip_) e =
    (match ptb_raises (calls float e ++ [c1]) c2 with
     | Some msg => Raise (PTBError msg)
     | None => Ok (mkAudioClip (ptb_audio (calls float e ++ [c1]))
                               (_sampleRateHz float (self float e)))
     end,
     mkEnv float (self float e) (calls float e ++ [c1; c2])).
Proof.
  intros Hflag Hrec c1 c2 Hq. unfold close, bind_.
  rewrite (on_recording_run e h _ Hrec). fold c1. rewrite Hq.
  rewrite (getAudioClip_open _ h) by done. simpl. fold c2.
  by rewrite <- app_assoc.
Qed.

(** X19.  A method other than [start] on a microphone without a stream
    raises [AttributeError]; [start] raises [AssertionError].  None of them
    calls PTB or changes the microphone. *)
Theorem no_stream (e : Env float) :
  _recording float (self float e) = None ->
  start_ e = (Raise AssertionError, e) /\
  stop_ e = (Raise AttributeError, e) /\
  close_ e = (Raise AttributeError, e) /\
  (_statusFlag float (self float e) ≠ NOT_STARTED ->
   getAudioClip_ e = (Raise AttributeError, e)).
Proof.
  intros Hrec. repeat split.
  - unfold start, bind_, assert_, ret_, raise_. rewrite Hrec.
    by destruct (_ =? _).
  - unfold stop, bind_, on_recording. by rewrite Hrec.
  - unfold close, on_recording. by rewrite Hrec.
  - intros Hflag. unfold getAudioClip. apply Z.eqb_neq in Hflag.
    rewrite Hflag. unfold bind_, on_recording. by rewrite Hrec.
Qed.

End Facts.

Section Devices.

Context (Dev AudioDevice : Type)
        (createFromPTBDeviceDesc : Dev -> AudioDevice)
        (isCapture : AudioDevice -> bool).

(** X20.  [getDevices] returns exactly the descriptors of the capture
    devices PTB reports, a single device reported as a dict being treated
    as a list of one; on Windows PTB is asked for devices of type 13 and
    for nothing else. *)
Theorem getDevices_capture_only platform get_devices desc :
  let reported :=
    match get_devices (if bool_decide (platform = "win32") then Some 13
                       else None) with
    | OneDevice _ d => [d]
    | DeviceList _ ds => ds
    end in
  (desc ∈ getDevices Dev AudioDevice createFromPTBDeviceDesc isCapture
            platform get_devices <->
     isCapture desc = true /\
     exists dev, dev ∈ reported /\ desc = createFromPTBDeviceDesc dev) /\
  (length (getDevices Dev AudioDevice createFromPTBDeviceDesc isCapture
             platform get_devices) <= length reported)%nat /\
  (forall g, g (Some 13) = get_devices (Some 13) ->
     getDevices Dev AudioDevice createFromPTBDeviceDesc isCapture "win32" g =
     getDevices Dev AudioDevice createFromPTBDeviceDesc isCapture "win32"
       get_devices).
Proof.
  intros reported. split; [|split].
  - unfold getDevices. fold reported. rewrite list_elem_of_filter.
    rewrite list_elem_of_fmap. split.
    + intros [Hc (dev & -> & Hdev)]. eauto.
    + intros [Hc (dev & Hdev & ->)]. eauto.
  - unfold getDevices. fold reported.
    etrans; [apply length_filter|]. by rewrite length_fmap.
  - intros g Hg. unfold getDevices.
    rewrite bool_decide_eq_true_2 by done. by rewrite Hg.
Qed.

End Devices.

End MicrophoneFacts.

(** ** The further properties on the scenario *)

Lemma generate_Ok_iff_required_witness :
  let out := generate Param_str_spec id_init first_pos PsychoJS
               image_component image_state in
  (out.1 = Ok tt <->
     forall n, n ∈ required PsychoJS ->
               is_Some (params image_component !! n)) /\
  (forall e, out.1 = Raise e ->
     buff out.2 = buff image_state /\
     exists n, n ∈ required PsychoJS /\ e = KeyError n /\
               params image_component !! n = None) /\
  libs out.2 = libs image_state.
Proof.
  apply (generate_Ok_iff_required Param_str_spec id_init first_pos PsychoJS
           image_component image_state).
  unfold wf. by_decide.
Defined.

Lemma colorSpace_native_only_witness :
  (writeInitCodeJS Param_str_spec id_init first_pos
     image_component_no_colorSpace image_state).1 = Ok tt /\
  (writeInitCode Param_str_spec id_init first_pos
     image_component_no_colorSpace image_state).1 =
    Raise (KeyError "colorSpace") /\
  buff (writeInitCode Param_str_spec id_init first_pos
          image_component_no_colorSpace image_state).2 = buff image_state.
Proof.
  apply (colorSpace_native_only Param_str_spec id_init first_pos
           image_component_no_colorSpace image_state).
  - unfold wf. by_decide.
  - intros n Hn. unfold required in Hn. simpl in Hn.
    elem_cases Hn; eexists; vm_compute; reflexivity.
  - by vm_compute.
Defined.

Lemma generate_ignores_unread_witness :
  (generate Param_str_spec id_init first_pos PsychoJS image_component
     (edit 3 (baseParam (PStr "hsv") "str") image_state)).1 =
    (generate Param_str_spec id_init first_pos PsychoJS image_component
       image_state).1 /\
  buff (generate Param_str_spec id_init first_pos PsychoJS image_component
          (edit 3 (baseParam (PStr "hsv") "str") image_state)).2 =
    buff (generate Param_str_spec id_init first_pos PsychoJS image_component
            image_state).2.
Proof.
  apply (generate_ignores_unread Param_str_spec id_init first_pos PsychoJS
           image_component image_state "colorSpace" 3%nat).
  - unfold wf. by_decide.
  - by vm_compute.
  - apply private_by_Forall. by_decide.
  - unfold required. simpl. solve_not_elem.
Defined.

Lemma generate_then_generate_witness :
  let g t := generate Param_str_spec id_init first_pos t image_component in
  exists out1 out2,
    buff (g PsychoJS image_state).2 = buff image_state ++ out1 /\
    buff (g PsychoPy image_state).2 = buff image_state ++ out2 /\
    buff (g PsychoPy (g PsychoJS image_state).2).2 =
      buff image_state ++ out1 ++ out2 /\
    (g PsychoPy (g PsychoJS image_state).2).1 = (g PsychoPy image_state).1.
Proof.
  apply (generate_then_generate Param_str_spec id_init first_pos PsychoJS
           PsychoPy image_component image_state).
  unfold wf. by_decide.
Defined.

Lemma resolveJS_other_unchanged_witness :
  exists inits news l',
    resolveJS id_init image_component image_state =
      (Ok inits, grow image_state news) /\
    inits !! "opacity" = Some (SParam l') /\
    heap (grow image_state news) !! l' =
      Some (id_init PsychoJS "opacity" (baseParam (PInt 1) "code")).
Proof.
  apply (resolveJS_other_unchanged id_init image_component image_state
           "opacity" 7%nat (baseParam (PInt 1) "code")).
  - unfold wf. by_decide.
  - by vm_compute.
  - by vm_compute.
  - apply int_not_special.
Defined.

Lemma ImageComponent_init_defines_witness :
  exists c s1,
    ImageComponent_init id base_component (PStr "face.jpg") (PStr "None")
      (PStr "linear") (PStr "128") (PBool false) (PBool false) base_state =
      (Ok c, s1) /\
    wf (params c) (heap s1) /\
    (forall k v t,
       (k, v, t) ∈ definedAs (PStr "face.jpg") (PStr "None") (PStr "linear")
                     (PStr "128") (PBool false) (PBool false) ->
       exists p, snapshot (heap s1) (params c) !! k = Some p /\
                 val p = v /\ valType p = t) /\
    (forall k, k ∉ defined ++ deleted ->
       snapshot (heap s1) (params c) !! k =
       snapshot (heap base_state) (params base_component) !! k) /\
    buff s1 = buff base_state /\ libs s1 = libs base_state ++ ["visual"].
Proof.
  apply (ImageComponent_init_defines id base_component base_state).
  - unfold wf. by_decide.
  - intros k Hk. unfold deleted in Hk.
    elem_cases Hk; eexists; vm_compute; reflexivity.
Defined.

Lemma ImageComponent_init_fresh_witness :
  exists c s1,
    ImageComponent_init id base_component (PStr "face.jpg") (PStr "None")
      (PStr "linear") (PStr "128") (PBool false) (PBool false) base_state =
      (Ok c, s1) /\
    forall k, k ∈ defined ->
      exists l, params c !! k = Some l /\
                (length (heap base_state) <= l)%nat /\
                forall k', params c !! k' = Some l -> k' = k.
Proof.
  apply (ImageComponent_init_fresh id base_component base_state).
  - unfold wf. by_decide.
  - intros k Hk. unfold deleted in Hk.
    elem_cases Hk; eexists; vm_compute; reflexivity.
Defined.

Lemma ImageComponent_init_missing_witness :
  let out := ImageComponent_init id base_component_missing (PStr "face.jpg")
               (PStr "None") (PStr "linear") (PStr "128") (PBool false)
               (PBool false) base_state in
  out.1 = Raise (KeyError "fillColorSpace") /\
  libs out.2 = libs base_state ++ ["visual"] /\
  length (heap out.2) = (length (heap base_state) + 6)%nat /\
  buff out.2 = buff base_state.
Proof.
  apply (ImageComponent_init_missing id base_component_missing base_state
           (PStr "face.jpg") (PStr "None") (PStr "linear") (PStr "128")
           (PBool false) (PBool false)
           ["fillColor"] "fillColorSpace" ["borderColor"; "borderColorSpace"]).
  - reflexivity.
  - intros k Hk. elem_cases Hk. eexists. vm_compute. reflexivity.
  - by vm_compute.
Defined.

Lemma ImageComponent_init_order_witness :
  exists c s1,
    ImageComponent_init id base_component (PStr "face.jpg") (PStr "None")
      (PStr "linear") (PStr "128") (PBool false) (PBool false) base_state =
      (Ok c, s1) /\
    order c = order base_component ++
              ["image"; "pos"; "size"; "ori"; "opacity"] /\
    forall n, n ∈ order c -> (is_Some (params c !! n) <-> n ∉ deleted).
Proof.
  apply (ImageComponent_init_order id base_component base_state).
  - intros k Hk. unfold deleted in Hk.
    elem_cases Hk; eexists; vm_compute; reflexivity.
  - intros n Hn. simpl in Hn.
    elem_cases Hn; eexists; vm_compute; reflexivity.
Defined.

Lemma ImageComponent_init_then_generate_witness :
  exists c s1 s2 pre post,
    ImageComponent_init id base_component (PStr "face.jpg") (PStr "None")
      (PStr "nearest") (PStr "128") (PBool false) (PBool false) base_state =
      (Ok c, s1) /\
    generate Param_str_spec id_init first_pos PsychoJS c s1 = (Ok tt, s2) /\
    buff s2 = buff base_state ++
      [pre +:+
       unitsClause Param_str_spec PsychoJS
         (baseParam (PStr "from exp settings") "str") +:+ post +:+
       (if py_eq (PStr "nearest") (PStr "linear") then ", interpolate : true"
        else ", interpolate : false") +:+
       depthClause first_pos PsychoJS c].
Proof.
  apply (ImageComponent_init_then_generate Param_str_spec id_init first_pos id
           PsychoJS base_component base_state).
  - unfold wf. by_decide.
  - intros k Hk. unfold inherited, deleted in Hk. simpl in Hk.
    elem_cases Hk; eexists; vm_compute; reflexivity.
  - by vm_compute.
Defined.

(** ** The properties of the microphone on a quiet PTB *)

Section MicrophoneExamples.

Import Microphone MicrophoneFacts.

Lemma init_checks_before_ptb_witness :
  __init__ Z bounded_float (fun _ => None) Ok (fun _ => None) 0 quiet_ptb
    (VNone Z) 48000 (VInt Z 2) (VInt Z 2) (VStr Z "10") [] =
    (Raise AssertionError, []) /\
  __init__ Z bounded_float (fun _ => None) Ok (fun _ => None) 0 quiet_ptb
    (VNone Z) 48000 (VInt Z 2) (VInt Z 2) (VInt Z (2 ^ 1024)) [] =
    (Raise OverflowError, []) /\
  __init__ Z bounded_float (fun _ => None) Ok (fun _ => None) 0 quiet_ptb
    (VNone Z) 48000 (VInt Z 2) (VStr Z "stereo") (VInt Z 10) [] =
    (Raise ValueError, []) /\
  __init__ Z bounded_float (fun _ => None) Ok (fun _ => None) 0 quiet_ptb
    (VNone Z) 48000 (VNone Z) (VInt Z 2) (VInt Z 10) [] =
    (Raise TypeError, []).
Proof.
  split; [|split; [|split]].
  - apply (init_checks_before_ptb Z bounded_float (fun _ => None) Ok
             (fun _ => None) 0 quiet_ptb (VNone Z) 48000 (VInt Z 2)
             (VInt Z 2) (VStr Z "10") [] AssertionError).
    left. split; reflexivity.
  - apply (init_checks_before_ptb Z bounded_float (fun _ => None) Ok
             (fun _ => None) 0 quiet_ptb (VNone Z) 48000 (VInt Z 2)
             (VInt Z 2) (VInt Z (2 ^ 1024)) [] OverflowError).
    right; left. split; [reflexivity | by vm_compute].
  - apply (init_checks_before_ptb Z bounded_float (fun _ => None) Ok
             (fun _ => None) 0 quiet_ptb (VNone Z) 48000 (VInt Z 2)
             (VStr Z "stereo") (VInt Z 10) [] ValueError).
    right; right; left.
    split; [reflexivity|]. split; [exists 10; by vm_compute | reflexivity].
  - apply (init_checks_before_ptb Z bounded_float (fun _ => None) Ok
             (fun _ => None) 0 quiet_ptb (VNone Z) 48000 (VNone Z)
             (VInt Z 2) (VInt Z 10) [] TypeError).
    right; right; right.
    split; [reflexivity|]. split; [exists 10; by vm_compute|].
    split; [by exists 2 | reflexivity].
Defined.

Lemma init_then_getAudioClip_witness :
  exists secs m ch,
    py_float Z Some (fun _ => None) (VInt Z 10) = Ok secs /\
    py_int Z Ok (fun _ => None) (VInt Z 2) = Ok m /\
    py_int Z Ok (fun _ => None) (VInt Z 2) = Ok ch /\
    calls Z demo_env =
      [] ++ [Stream_new Z m 48000 ch;
             Stream_get_audio_data Z (length (@nil (call Z))) (Some secs)] /\
    demo_microphone =
      mkMicrophone Z (VNone Z) 48000 secs m ch None
        (Some (length (@nil (call Z)))) 0 /\
    getAudioClip Z 0 (list Z) (list Z * Z) pair quiet_ptb silence
        (mkEnv Z demo_microphone (calls Z demo_env)) =
      (Raise (AudioStreamError closed_msg),
       mkEnv Z demo_microphone (calls Z demo_env)).
Proof.
  apply (init_then_getAudioClip Z Some (fun _ => None) Ok (fun _ => None) 0
           (list Z) (list Z * Z) pair quiet_ptb silence
           (VNone Z) 48000 (VInt Z 2) (VInt Z 2) (VInt Z 10) []).
  reflexivity.
Defined.

Lemma start_then_getAudioClip_witness :
  exists e',
    bind_ (start Z 1 quiet_ptb)
      (fun _ => getAudioClip Z 0 (list Z) (list Z * Z) pair quiet_ptb silence)
      demo_env =
      (Ok (silence (calls Z demo_env ++ [Stream_start Z 0 0 None]), 48000),
       e') /\
    calls Z e' =
      calls Z demo_env ++
      [Stream_start Z 0 0 None; Stream_get_audio_data Z 0 None] /\
    _statusFlag Z (self Z e') = 1.
Proof.
  apply (start_then_getAudioClip Z 0 1 (list Z) (list Z * Z) pair quiet_ptb
           silence demo_env 0%nat); by vm_compute.
Defined.

Lemma stop_then_getAudioClip_witness :
  exists e',
    bind_ (stop Z 0 quiet_ptb)
      (fun _ => getAudioClip Z 0 (list Z) (list Z * Z) pair quiet_ptb silence)
      demo_env_started =
      (Raise (AudioStreamError closed_msg), e') /\
    calls Z e' = calls Z demo_env_started ++ [Stream_stop Z 0] /\
    _statusFlag Z (self Z e') = 0.
Proof.
  apply (stop_then_getAudioClip Z 0 (list Z) (list Z * Z) pair quiet_ptb
           silence demo_env_started 0%nat).
  reflexivity.
Defined.

Lemma stopTime_then_start_witness :
  exists e1 e2,
    stopTime_setter Z Some (fun _ => None) (VBool Z true) demo_env =
      (Ok tt, e1) /\
    calls Z e1 = calls Z demo_env /\ stopTime Z e1 = Some 1 /\
    start Z 1 quiet_ptb e1 = (Ok tt, e2) /\
    calls Z e2 = calls Z demo_env ++ [Stream_start Z 0 0 (Some 1)] /\
    stopTime Z e2 = Some 1.
Proof.
  apply (stopTime_then_start Z Some (fun _ => None) 1 quiet_ptb demo_env
           (VBool Z true) 1 0%nat); reflexivity.
Defined.

Lemma stopTime_setter_rejects_witness :
  stopTime_setter Z bounded_float (fun _ => None) (VStr Z "2.5") demo_env =
    (Raise AssertionError, demo_env) /\
  stopTime_setter Z bounded_float (fun _ => None) (VInt Z (2 ^ 1024))
    demo_env = (Raise OverflowError, demo_env).
Proof.
  split.
  - apply (stopTime_setter_rejects Z bounded_float (fun _ => None) demo_env
             (VStr Z "2.5") AssertionError).
    left. split; reflexivity.
  - apply (stopTime_setter_rejects Z bounded_float (fun _ => None) demo_env
             (VInt Z (2 ^ 1024)) OverflowError).
    right. split; [reflexivity | by vm_compute].
Defined.

Lemma start_twice_witness :
  exists e',
    bind_ (start Z 1 quiet_ptb) (fun _ => start Z 1 quiet_ptb) demo_env =
      (Ok tt, e') /\
    calls Z e' =
      calls Z demo_env ++ [Stream_start Z 0 0 None; Stream_start Z 0 0 None] /\
    _statusFlag Z (self Z e') = 1.
Proof.
  apply (start_twice Z 1 quiet_ptb demo_env 0%nat); reflexivity.
Defined.

Lemma close_then_getAudioClip_witness :
  bind_ (close Z quiet_ptb)
    (fun _ => getAudioClip Z 0 (list Z) (list Z * Z) pair quiet_ptb silence)
    demo_env_started =
    (match quiet_ptb (calls Z demo_env_started ++ [Stream_close Z 0])
             (Stream_get_audio_data Z 0 None) with
     | Some msg => Raise (PTBError msg)
     | None =>
         Ok (silence (calls Z demo_env_started ++ [Stream_close Z 0]), 48000)
     end,
     mkEnv Z (self Z demo_env_started)
       (calls Z demo_env_started ++
        [Stream_close Z 0; Stream_get_audio_data Z 0 None])).
Proof.
  apply (close_then_getAudioClip Z 0 (list Z) (list Z * Z) pair quiet_ptb
           silence demo_env_started 0%nat); by vm_compute.
Defined.

Lemma no_stream_witness :
  start Z 1 quiet_ptb demo_env_no_stream =
    (Raise AssertionError, demo_env_no_stream) /\
  stop Z 0 quiet_ptb demo_env_no_stream =
    (Raise AttributeError, demo_env_no_stream) /\
  close Z quiet_ptb demo_env_no_stream =
    (Raise AttributeError, demo_env_no_stream) /\
  (_statusFlag Z (self Z demo_env_no_stream) ≠ 0 ->
   getAudioClip Z 0 (list Z) (list Z * Z) pair quiet_ptb silence
     demo_env_no_stream = (Raise AttributeError, demo_env_no_stream)).
Proof.
  apply (no_stream Z 0 1 (list Z) (list Z * Z) pair quiet_ptb silence
           demo_env_no_stream).
  reflexivity.
Defined.

End MicrophoneExamples.
